(** * must: runtime invariant checks that abort on violation

    A shallow embedding of package [must] (must.go).  A check function
    of the package returns, or calls [abort], which runs the registered
    failure handlers and then panics, or ends in a panic of the runtime
    where [==] or the lookup of a key is refused.  The package state is
    the handler registry; handlers are caller code, so their behaviour is
    a parameter of the development. *)

From Stdlib Require Import ZArith Lia Floats.SpecFloat HexString.
From stdpp Require Import base option list strings pretty.

Set Warnings "-register-all".
Open Scope Z_scope.

(** ** Go types and boxed values *)

(** Types.  [TInterface] is a named interface type such as error,
    [TFunc] a function type, given by its signature as [%T] prints it,
    [TStruct] a struct type with the names and types of its fields, and
    [TNamed] a defined type, with its qualified name and its underlying
    type. *)
Inductive gotype :=
  | TBool
  | TInt
  | TFloat64
  | TString
  | TUnsafePointer
  | TAny
  | TInterface (name : string)
  | TPtr (elem : gotype)
  | TSlice (elem : gotype)
  | TMap (key elem : gotype)
  | TChan (elem : gotype)
  | TFunc (signature : string)
  | TArray (length : N) (elem : gotype)
  | TStruct (fields : list (string * gotype))
  | TNamed (name : string) (underlying : gotype).

#[global] Instance gotype_eq_dec : EqDecision gotype.
Proof.
  unfold EqDecision, Decision. fix IH 1.
  intros [| | | | | |name|elem|elem|key elem|elem|signature|n elem|fields|name underlying]
         [| | | | | |name'|elem'|elem'|key' elem'|elem'|signature'|n' elem'|fields'
          |name' underlying'];
    try (right; discriminate); try (left; reflexivity).
  - destruct (decide (name = name')) as [->|]; [by left|right; congruence].
  - destruct (IH elem elem') as [->|]; [by left|right; congruence].
  - destruct (IH elem elem') as [->|]; [by left|right; congruence].
  - destruct (IH key key') as [->|]; [|right; congruence].
    destruct (IH elem elem') as [->|]; [by left|right; congruence].
  - destruct (IH elem elem') as [->|]; [by left|right; congruence].
  - destruct (decide (signature = signature')) as [->|]; [by left|right; congruence].
  - destruct (decide (n = n')) as [->|]; [|right; congruence].
    destruct (IH elem elem') as [->|]; [by left|right; congruence].
  - assert ({fields = fields'} + {fields ≠ fields'}) as [->|]; [|by left|right; congruence].
    revert fields'. induction fields as [|[n t] fields IHf]; intros [|[n' t'] fields'];
      try (right; discriminate); try (left; reflexivity).
    destruct (decide (n = n')) as [->|]; [|right; congruence].
    destruct (IH t t') as [->|]; [|right; congruence].
    destruct (IHf fields') as [->|]; [by left|right; congruence].
  - destruct (decide (name = name')) as [->|]; [|right; congruence].
    destruct (IH underlying underlying') as [->|]; [by left|right; congruence].
Defined.

(** What the verb [%T] prints for a type. *)
Fixpoint type_name (t : gotype) : string :=
  match t with
  | TBool => "bool"
  | TInt => "int"
  | TFloat64 => "float64"
  | TString => "string"
  | TUnsafePointer => "unsafe.Pointer"
  | TAny => "interface {}"
  | TInterface name => name
  | TPtr elem => "*" +:+ type_name elem
  | TSlice elem => "[]" +:+ type_name elem
  | TMap key elem => "map[" +:+ type_name key +:+ "]" +:+ type_name elem
  | TChan elem => "chan " +:+ type_name elem
  | TFunc signature => signature
  | TArray length elem => "[" +:+ pretty length +:+ "]" +:+ type_name elem
  | TStruct [] => "struct {}"
  | TStruct ((name, t) :: fields) =>
      "struct { " +:+ name +:+ " " +:+ type_name t
      +:+ (fix rest (fields : list (string * gotype)) : string :=
             match fields with
             | [] => ""
             | (name, t) :: fields => "; " +:+ name +:+ " " +:+ type_name t +:+ rest fields
             end) fields
      +:+ " }"
  | TNamed name _ => name
  end.

(** Whether an interface keeps a value of the type in its data word
    itself, rather than a pointer to a copy: a pointer, map, channel,
    function and unsafe.Pointer, an array of one such element and a
    struct of one such field. *)
Fixpoint is_direct_iface (t : gotype) : bool :=
  match t with
  | TPtr _ | TMap _ _ | TChan _ | TFunc _ | TUnsafePointer => true
  | TArray length elem => bool_decide (length = 1%N) && is_direct_iface elem
  | TStruct [(_, t)] => is_direct_iface t
  | TNamed _ underlying => is_direct_iface underlying
  | _ => false
  end.

(** Addresses; a pointer is [None] when it is nil. *)
Definition addr := N.
Definition unsafe_Pointer := option addr.

(** float64 is IEEE 754 binary64.  An int is a [Z]: the package only
    compares and prints integers, so no operation of it can wrap. *)
Definition float64 := spec_float.

(** An interface value: [VNil] is the nil interface, every other
    constructor is a value together with its dynamic type.  A pointer holds
    the address of its target, a slice its elements, a map its entries
    (one per key), a channel and a function the address of what the
    runtime allocated for them; each of the five can be nil.
    An unsafe.Pointer is an address or nil.  A struct holds its fields,
    each with its name, its type and its value, and an array its
    elements.  [VDefined name v] is the value [v] at the defined type
    [name]; [v] is not the nil interface.  [VRuntimeError] is the value
    the runtime panics with. *)
Inductive any :=
  | VNil
  | VBool (b : bool)
  | VInt (n : Z)
  | VFloat64 (f : float64)
  | VString (s : string)
  | VRuntimeError (text : string)
  | VPtr (elem : gotype) (target : unsafe_Pointer)
  | VSlice (elem : gotype) (elems : option (list any))
  | VMap (key elem : gotype) (entries : option (list (any * any)))
  | VChan (elem : gotype) (ch : unsafe_Pointer)
  | VFunc (signature : string) (code : unsafe_Pointer)
  | VUnsafePointer (p : unsafe_Pointer)
  | VStruct (fields : list (string * gotype * any))
  | VArray (elem : gotype) (elems : list any)
  | VDefined (name : string) (v : any).

(** The dynamic type; the nil interface has none. *)
Fixpoint type_of (v : any) : option gotype :=
  match v with
  | VNil => None
  | VBool _ => Some TBool
  | VInt _ => Some TInt
  | VFloat64 _ => Some TFloat64
  | VString _ => Some TString
  | VRuntimeError _ => Some (TNamed "runtime.errorString" TString)
  | VPtr elem _ => Some (TPtr elem)
  | VSlice elem _ => Some (TSlice elem)
  | VMap key elem _ => Some (TMap key elem)
  | VChan elem _ => Some (TChan elem)
  | VFunc signature _ => Some (TFunc signature)
  | VUnsafePointer _ => Some TUnsafePointer
  | VStruct fields => Some (TStruct (map fst fields))
  | VArray elem elems => Some (TArray (N.of_nat (length elems)) elem)
  | VDefined name v => Some (TNamed name (default TAny (type_of v)))
  end.

(** [%T] of an interface value. *)
Definition fmt_T (v : any) : string :=
  match type_of v with
  | None => "<nil>"
  | Some t => type_name t
  end.

(** The two-word header of an interface value, as NotNil declares it. *)
Record eface := { _type : option gotype; data : unsafe_Pointer }.

(** The error interface: nil, or an error with the text it prints. *)
Inductive error :=
  | nil_error
  | an_error (text : string).

(** ** Results of os.Stat *)

(** The error number inside the error os.Stat returns. *)
Definition Errno := N.
Definition ENOENT : Errno := 2%N.
Definition EACCES : Errno := 13%N.
Definition ENOTDIR : Errno := 20%N.

Record FileInfo := { IsDir : bool }.

(** os.Stat returns a FileInfo and a nil error, or an error. *)
Inductive stat_result :=
  | StatOk (info : FileInfo)
  | StatErr (err : Errno).

(** The [err] of the pair os.Stat returns; [None] is nil. *)
Definition err_of (r : stat_result) : option Errno :=
  match r with
  | StatOk _ => None
  | StatErr err => Some err
  end.

(** os.IsNotExist: true for the does-not-exist error only, false for nil. *)
Definition os_IsNotExist (err : option Errno) : bool :=
  match err with
  | Some e => (e =? ENOENT)%N
  | None => false
  end.

(** ** Constraints of the generic functions *)

(** [%v] of a value of type [T]. *)
Class Fmt (T : Type) := fmt_v : T → string.

(** What the runtime makes of an operation it may refuse: a value, or the
    text of the runtime error it panics with. *)
Inductive result (A : Type) :=
  | Ok (a : A)
  | RuntimePanic (text : string).
Arguments Ok {A} a.
Arguments RuntimePanic {A} text.

Definition result_map {A B} (f : A → B) (r : result A) : result B :=
  match r with
  | Ok a => Ok (f a)
  | RuntimePanic text => RuntimePanic text
  end.

(** The constraint [comparable]: the type has [==], and its values can be
    keys of a map.  At an interface type, and at a type that holds one,
    [==] panics when it comes to two values of one type that has no
    [==], and hashing a key panics when it comes to such a value. *)
Class Equality (T : Type) := {
  go_equal : T → T → result bool;
  go_hash : T → result unit
}.

(** The types whose [==] always has a result: all that satisfy
    [comparable] but the interface types and the types that hold one. *)
Class Comparable (T : Type) := go_eq : T → T → bool.

#[global] Instance comparable_equality `{Comparable T} : Equality T :=
  {| go_equal x y := Ok (go_eq x y); go_hash _ := Ok () |}.

(** [~int | float64]: a zero, [==], [<] and [<=]; [>] and [>=] are the
    same comparisons with the operands exchanged. *)
Class Number (T : Type) := {
  num_zero : T;
  num_eq : T → T → bool;
  num_lt : T → T → bool;
  num_le : T → T → bool
}.
Definition num_gt `{Number T} (x y : T) : bool := num_lt y x.
Definition num_ge `{Number T} (x y : T) : bool := num_le y x.

#[global] Instance int_number : Number Z :=
  {| num_zero := 0; num_eq := Z.eqb; num_lt := Z.ltb; num_le := Z.leb |}.
#[global] Instance float64_number : Number float64 :=
  {| num_zero := S754_zero false; num_eq := SFeqb; num_lt := SFltb; num_le := SFleb |}.

#[global] Instance int_fmt : Fmt Z := pretty.
#[global] Instance string_fmt : Fmt string := λ s, s.
#[global] Instance bool_fmt : Fmt bool := λ b, if b then "true" else "false".
#[global] Instance int_comparable : Comparable Z := Z.eqb.
#[global] Instance string_comparable : Comparable string := λ a b, bool_decide (a = b).
#[global] Instance bool_comparable : Comparable bool := Bool.eqb.
#[global] Instance float64_comparable : Comparable float64 := SFeqb.

(** Whether the values of a type can be compared with [==]: not those of
    a slice, map or function type, nor of an array or struct type that
    holds one. *)
Fixpoint comparable_type (t : gotype) : bool :=
  match t with
  | TSlice _ | TMap _ _ | TFunc _ => false
  | TArray _ elem => comparable_type elem
  | TStruct fields =>
      (fix all (fields : list (string * gotype)) : bool :=
         match fields with
         | [] => true
         | (_, t) :: fields => comparable_type t && all fields
         end) fields
  | TNamed _ underlying => comparable_type underlying
  | _ => true
  end.

(** [==] on two interface values, given what [==] makes of the values
    they hold when these are of one type: two nil interfaces are equal,
    values of different types are not, and values of one type that has no
    [==] make the runtime panic. *)
Definition interface_equal (x y : any) (same_type : result bool) : result bool :=
  match type_of x, type_of y with
  | None, None => Ok true
  | Some t, Some u =>
      if decide (t = u)
      then if comparable_type t then same_type
           else RuntimePanic ("comparing uncomparable type " +:+ type_name t)
      else Ok false
  | _, _ => Ok false
  end.

(** [==] on two values of one comparable type.  Structs and arrays are
    compared element by element, in order, up to the first difference;
    fields named _ are passed over; an element of interface type is
    compared as an interface value. *)
Fixpoint value_equal (x y : any) : result bool :=
  match x, y with
  | VNil, VNil => Ok true
  | VBool a, VBool b => Ok (Bool.eqb a b)
  | VInt a, VInt b => Ok (a =? b)
  | VFloat64 a, VFloat64 b => Ok (SFeqb a b)
  | VString a, VString b => Ok (bool_decide (a = b))
  | VRuntimeError a, VRuntimeError b => Ok (bool_decide (a = b))
  | VPtr _ a, VPtr _ b => Ok (bool_decide (a = b))
  | VChan _ a, VChan _ b => Ok (bool_decide (a = b))
  | VUnsafePointer a, VUnsafePointer b => Ok (bool_decide (a = b))
  | VStruct fields, VStruct fields' =>
      (fix each (fields fields' : list (string * gotype * any)) : result bool :=
         match fields, fields' with
         | [], [] => Ok true
         | (name, _, a) :: fields, (_, b) :: fields' =>
             if bool_decide (name = "_") then each fields fields'
             else match interface_equal a b (value_equal a b) with
                  | Ok true => each fields fields'
                  | r => r
                  end
         | _, _ => Ok false
         end) fields fields'
  | VArray _ elems, VArray _ elems' =>
      (fix each (elems elems' : list any) : result bool :=
         match elems, elems' with
         | [], [] => Ok true
         | a :: elems, b :: elems' =>
             match interface_equal a b (value_equal a b) with
             | Ok true => each elems elems'
             | r => r
             end
         | _, _ => Ok false
         end) elems elems'
  | VDefined _ a, VDefined _ b => value_equal a b
  | _, _ => Ok false
  end.

(** Hashing an interface value, given what hashing makes of the value it
    holds: a value of a type that has no [==] makes the runtime panic. *)
Definition interface_hash (x : any) (held : result unit) : result unit :=
  match type_of x with
  | None => Ok ()
  | Some t =>
      if comparable_type t then held
      else RuntimePanic ("hash of unhashable type " +:+ type_name t)
  end.

(** Hashing a value of a comparable type: the elements of a struct or
    array are hashed in order, fields named _ are passed over. *)
Fixpoint value_hash (x : any) : result unit :=
  match x with
  | VStruct fields =>
      (fix each (fields : list (string * gotype * any)) : result unit :=
         match fields with
         | [] => Ok ()
         | (name, _, a) :: fields =>
             if bool_decide (name = "_") then each fields
             else match interface_hash a (value_hash a) with
                  | Ok _ => each fields
                  | r => r
                  end
         end) fields
  | VArray _ elems =>
      (fix each (elems : list any) : result unit :=
         match elems with
         | [] => Ok ()
         | a :: elems =>
             match interface_hash a (value_hash a) with
             | Ok _ => each elems
             | r => r
             end
         end) elems
  | VDefined _ a => value_hash a
  | _ => Ok ()
  end.

(** [==] and hashing at the type any. *)
#[global] Instance any_equality : Equality any :=
  {| go_equal x y := interface_equal x y (value_equal x y);
     go_hash x := interface_hash x (value_hash x) |}.

(** A typed pointer [*T]: nil, or the address of a variable holding
    [pointee]. *)
Inductive pointer (T : Type) :=
  | nil_pointer
  | pointer_to (a : addr) (pointee : T).
Arguments nil_pointer {T}.
Arguments pointer_to {T} a pointee.

Definition is_nil_pointer {T} (p : pointer T) : bool :=
  match p with
  | nil_pointer => true
  | pointer_to _ _ => false
  end.

(** slices.Index and slices.Contains of the standard library: the loop
    compares the value with one element after the other and ends at the
    first that [==] makes equal to it. *)
Fixpoint slices_Index `{Equality T} (s : list T) (v : T) : result Z :=
  match s with
  | [] => Ok (-1)
  | x :: rest =>
      match go_equal v x with
      | Ok true => Ok 0
      | Ok false =>
          match slices_Index rest v with
          | Ok i => Ok (if i <? 0 then -1 else i + 1)
          | RuntimePanic text => RuntimePanic text
          end
      | RuntimePanic text => RuntimePanic text
      end
  end.
Definition slices_Contains `{Equality T} (s : list T) (v : T) : result bool :=
  match slices_Index s v with
  | Ok i => Ok (0 <=? i)
  | RuntimePanic text => RuntimePanic text
  end.

(** A map [map[K]V] is held as the list of its entries; a nil map has
    none.  [m[key]] hashes the key and finds the entry whose key [==]
    makes equal to it. *)
Definition map_lookup `{Equality K} {V} (m : list (K * V)) (key : K) : result (option V) :=
  match go_hash key with
  | Ok _ =>
      Ok (snd <$> find (λ entry, match go_equal key entry.1 with
                                 | Ok true => true
                                 | _ => false
                                 end) m)
  | RuntimePanic text => RuntimePanic text
  end.

(** ** Package state *)

Section State.

(** Failure handlers are values of type OnFailure; [W] is everything else
    a handler or the file system can observe. *)
Context {OnFailure W : Type}.

(** [failureHandlers] is the package variable.  [calls] lists the handler
    calls made by abort's loop so far, with their arguments. *)
Record state := {
  failureHandlers : list OnFailure;
  calls : list (OnFailure * string * string);
  world : W
}.

(** A computation returns a value, panics with a payload, or never comes
    back because a handler it called did not. *)
Inductive outcome (A : Type) :=
  | Returned (a : A) (s : state)
  | Panicked (p : any) (s : state)
  | Stopped (s : state).

(** How a call of a handler ends: it returns, it panics, or it does
    neither (it exits the process, or blocks). *)
Inductive completion :=
  | Returns
  | Panics (p : any)
  | Stops.

(** What a call of a handler does: the handlers it registers, the world
    it leaves, and how it ends.  The registry is not exported, so the only
    thing a handler can do to it is to call RegisterFailureHandler. *)
Record handler_run := {
  hr_registered : list OnFailure;
  hr_world : W;
  hr_completion : completion
}.

End State.

Arguments state : clear implicits.
Arguments outcome : clear implicits.
Arguments handler_run : clear implicits.
Arguments Returned {OnFailure W A} a s.
Arguments Panicked {OnFailure W A} p s.
Arguments Stopped {OnFailure W A} s.

(** The program that uses the package and the machine it runs on: the
    handlers and what a call of one does, where the runtime keeps what a
    non-nil data word points to (the header of a map, the copy made of a
    value that is not itself a pointer), the file system as os.Stat reads
    it, which types have the methods of a named interface, and what [%v]
    prints for a float64 and for a value of interface type. *)
Class Host := {
  OnFailure : Type;
  W : Type;
  run : OnFailure → string → string → state OnFailure W → handler_run OnFailure W;
  storage : any → addr;
  os_Stat : W → string → stat_result;
  implements : gotype → string → bool;
  fmt_float64 : float64 → string;
  fmt_any : any → string
}.

#[global] Instance float64_fmt `{Host} : Fmt float64 := fmt_float64.
#[global] Instance any_fmt `{Host} : Fmt any := fmt_any.

(** ** Package must *)

Module must.
Section Must.

Context `{Host}.

Definition M (A : Type) : Type := state OnFailure W → outcome OnFailure W A.

#[global] Instance M_ret : MRet M := λ A a s, Returned a s.
#[global] Instance M_bind : MBind M := λ A B k c s,
  match c s with
  | Returned a s' => k a s'
  | Panicked p s' => Panicked p s'
  | Stopped s' => Stopped s'
  end.

Definition panic {A} (p : any) : M A := λ s, Panicked p s.

(** An operation the runtime may refuse: its value, or a panic with the
    runtime error. *)
Definition runtime {A} (r : result A) : M A :=
  match r with
  | Ok a => mret a
  | RuntimePanic text => panic (VRuntimeError text)
  end.

(** ** The registry *)

(** Lock and Unlock bracket the append.  Nothing else takes the mutex and
    no other code runs while it is held, so in a sequential run it is free
    at every call. *)
Definition RegisterFailureHandler (f : OnFailure) : M unit := λ s,
  Returned () {| failureHandlers := failureHandlers s ++ [f];
                 calls := calls s;
                 world := world s |}.

(** [f(message, details)] inside abort's loop. *)
Definition call (f : OnFailure) (message details : string) : M unit := λ s,
  let r := run f message details s in
  let s' := {| failureHandlers := failureHandlers s ++ hr_registered r;
               calls := calls s ++ [(f, message, details)];
               world := hr_world r |} in
  match hr_completion r with
  | Returns => Returned () s'
  | Panics p => Panicked p s'
  | Stops => Stopped s'
  end.

(** [for _, f := range fs { f(message, details) }] *)
Fixpoint range_call (fs : list OnFailure) (message details : string) : M unit :=
  match fs with
  | [] => mret ()
  | f :: rest => call f message details ;; range_call rest message details
  end.

(** fmt.Sprint of one string is that string. *)
Definition Sprint (s : string) : string := s.

(** The range expression is evaluated once: the loop runs over the
    handlers registered when abort is entered. *)
Definition abort (message details : string) : M unit := λ s,
  (range_call (failureHandlers s) message details ;;
   panic (VString (message +:+ ": " +:+ Sprint details))) s.

(** ** Check functions *)

(** [value == nil] on an interface value. *)
Definition is_nil_interface (value : any) : bool :=
  match value with
  | VNil => true
  | _ => false
  end.

(** The pointer that is a value of a type kept in the data word itself:
    the pointer, map, channel or function, or the one inside the
    struct or array that holds nothing else. *)
Fixpoint data_word (value : any) : unsafe_Pointer :=
  match value with
  | VPtr _ target => target
  | VMap _ _ None => None
  | VChan _ ch => ch
  | VFunc _ code => code
  | VUnsafePointer p => p
  | VStruct [(_, field)] => data_word field
  | VArray _ [elem] => data_word elem
  | VDefined _ v => data_word v
  | _ => Some (storage value)
  end.

(** The header the runtime builds for [value], which NotNil reads
    through an unsafe cast of [&value].  A value of a type that the
    interface keeps directly is the data word itself, so a nil one leaves
    the word nil; every other value is copied and the word is the address
    of the copy. *)
Definition efaceOf (value : any) : eface :=
  {| _type := type_of value;
     data := match type_of value with
             | None => None
             | Some t => if is_direct_iface t then data_word value
                         else Some (storage value)
             end |}.

Definition NotNil (value : any) (message : string) : M unit :=
  (if is_nil_interface value
   then abort message "expected a non-nil value, got nil"
   else mret ()) ;;
  let valuePtr := efaceOf value in
  if bool_decide (data valuePtr = None) && negb (bool_decide (_type valuePtr = None))
  then abort message ("expected a non-nil value, got nil pointer of type " +:+ fmt_T value)
  else mret ().

Definition NoError (err : error) (message : string) : M unit :=
  match err with
  | an_error text => abort message ("expected no error, got: " +:+ text)
  | nil_error => mret ()
  end.

Definition Error (err : error) (message : string) : M unit :=
  match err with
  | nil_error => abort message "expected an error, got nil"
  | an_error _ => mret ()
  end.

Definition NotEqual `{Equality T, Fmt T} (expected value : T) (message : string) : M unit :=
  equal ← runtime (go_equal expected value);
  if equal : bool
  then abort message ("expected " +:+ fmt_v expected +:+ " to not be equal to " +:+ fmt_v value)
  else mret ().

Definition Equal `{Equality T, Fmt T} (expected value : T) (message : string) : M unit :=
  equal ← runtime (go_equal expected value);
  if negb equal
  then abort message ("expected " +:+ fmt_v expected +:+ " to be equal to " +:+ fmt_v value)
  else mret ().

Definition True (value : bool) (message : string) : M unit :=
  if negb value then abort message "expected true, got false" else mret ().

Definition False (value : bool) (message : string) : M unit :=
  if value then abort message "expected false, got true" else mret ().

Definition NotZero `{Number T} (value : T) (message : string) : M unit :=
  if num_eq value num_zero
  then abort message "expected non-zero value, got zero"
  else mret ().

Definition GreaterThan `{Number T, Fmt T} (value threshold : T) (message : string) : M unit :=
  if num_le value threshold
  then abort message ("expected " +:+ fmt_v value +:+ " to be greater than " +:+ fmt_v threshold)
  else mret ().

Definition LessThan `{Number T, Fmt T} (value threshold : T) (message : string) : M unit :=
  if num_ge value threshold
  then abort message ("expected " +:+ fmt_v value +:+ " to be less than " +:+ fmt_v threshold)
  else mret ().

Definition GreaterThanOrEqual `{Number T, Fmt T} (value threshold : T) (message : string) : M unit :=
  if num_lt value threshold
  then abort message ("expected " +:+ fmt_v value +:+ " to be greater than or equal to "
                      +:+ fmt_v threshold)
  else mret ().

Definition LessThanOrEqual `{Number T, Fmt T} (value threshold : T) (message : string) : M unit :=
  if num_gt value threshold
  then abort message ("expected " +:+ fmt_v value +:+ " to be less than or equal to "
                      +:+ fmt_v threshold)
  else mret ().

(** [len] of a slice or map held as an optional list; nil has length 0. *)
Definition len {A} (v : option (list A)) : Z :=
  match v with
  | None => 0
  | Some l => Z.of_nat (length l)
  end.

(** The type switch has the cases map[any]any, []any and string. *)
Definition NotEmpty (value : any) (message : string) : M unit :=
  match value with
  | VMap TAny TAny v =>
      if len v =? 0 then abort message "expected a non-empty map, got empty" else mret ()
  | VSlice TAny v =>
      if len v =? 0 then abort message "expected a non-empty slice, got empty" else mret ()
  | VString v =>
      if bool_decide (v = "")
      then abort message "expected a non-empty string, got empty"
      else mret ()
  | v => abort message ("expected a map, slice or string, got " +:+ fmt_T v)
  end.

Definition Empty (value : any) (message : string) : M unit :=
  match value with
  | VMap TAny TAny v =>
      if negb (len v =? 0) then abort message "expected an empty map, got non-empty" else mret ()
  | VSlice TAny v =>
      if negb (len v =? 0) then abort message "expected an empty slice, got non-empty" else mret ()
  | VString v =>
      if negb (bool_decide (v = ""))
      then abort message "expected an empty string, got non-empty"
      else mret ()
  | v => abort message ("expected a map, slice or string, got " +:+ fmt_T v)
  end.

Definition Contains `{Equality T, Fmt T} (slice : list T) (value : T) (message : string) : M unit :=
  found ← runtime (slices_Contains slice value);
  if found : bool then mret ()
  else abort message ("expected slice to contain " +:+ fmt_v value +:+ ", but it does not").

Definition NotContains `{Equality T, Fmt T} (slice : list T) (value : T) (message : string) : M unit :=
  found ← runtime (slices_Contains slice value);
  if negb found then mret ()
  else abort message ("expected slice to not contain " +:+ fmt_v value +:+ ", but it does").

Definition IsNil (value : any) (message : string) : M unit :=
  if negb (is_nil_interface value) then abort message "expected nil, got non-nil" else mret ().

Definition IsNotNil (value : any) (message : string) : M unit :=
  if is_nil_interface value then abort message "expected non-nil, got nil" else mret ().

(** os.Stat reads the file system, which is part of the world. *)
Definition Stat (path : string) : M stat_result := λ s,
  Returned (os_Stat (world s) path) s.

Definition FileExists (path message : string) : M unit :=
  r ← Stat path;
  if os_IsNotExist (err_of r)
  then abort message ("expected file " +:+ path +:+ " to exist, but it does not")
  else mret ().

Definition DirExists (path message : string) : M unit :=
  (r ← Stat path;
   if os_IsNotExist (err_of r)
   then abort message ("expected directory " +:+ path +:+ " to exist, but it does not")
   else mret ()) ;;
  r ← Stat path;
  match r with
  | StatOk info =>
      if negb (IsDir info)
      then abort message ("expected " +:+ path +:+ " to be a directory, but it is not")
      else mret ()
  | StatErr _ => mret ()
  end.

(** [_, ok := value.(T)] *)
Definition type_assert (value : any) (T : gotype) : bool :=
  match type_of value with
  | None => false
  | Some t =>
      match T with
      | TAny => true
      | TInterface name => implements t name
      | _ => bool_decide (t = T)
      end
  end.

Definition TypeOf (T : gotype) (value : any) (message : string) : M unit :=
  if negb (type_assert value T)
  then abort message ("expected value of type " +:+ type_name (TPtr T) +:+ ", got " +:+ fmt_T value)
  else mret ().

Definition TypeOfNot (T : gotype) (value : any) (message : string) : M unit :=
  if type_assert value T
  then abort message ("expected value not of type " +:+ type_name (TPtr T) +:+ ", got "
                      +:+ fmt_T value)
  else mret ().

(** [*p]; the runtime panics when [p] is nil. *)
Definition deref {T} (p : pointer T) : M T :=
  match p with
  | pointer_to _ pointee => mret pointee
  | nil_pointer => panic (VRuntimeError "invalid memory address or nil pointer dereference")
  end.

Definition PointsToSame `{Equality T, Fmt T} (a b : pointer T) (message : string) : M unit :=
  (if is_nil_pointer a || is_nil_pointer b
   then abort message "expected non-nil pointers, got nil"
   else mret ()) ;;
  x ← deref a; y ← deref b;
  equal ← runtime (go_equal x y);
  if negb equal
  then abort message ("expected pointers to point to the same value, got "
                      +:+ fmt_v x +:+ " and " +:+ fmt_v y)
  else mret ().

Definition PointsToNotSame `{Equality T, Fmt T} (a b : pointer T) (message : string) : M unit :=
  (if is_nil_pointer a || is_nil_pointer b
   then abort message "expected non-nil pointers, got nil"
   else mret ()) ;;
  x ← deref a; y ← deref b;
  equal ← runtime (go_equal x y);
  if equal : bool
  then abort message ("expected pointers to point to different values, got "
                      +:+ fmt_v x +:+ " and " +:+ fmt_v y)
  else mret ().

Definition SliceHas `{Equality T, Fmt T} (slice : list T) (value : T) (message : string) : M unit :=
  found ← runtime (slices_Contains slice value);
  if negb found
  then abort message ("expected slice to have " +:+ fmt_v value +:+ ", but it does not")
  else mret ().

Definition SliceNotHas `{Equality T, Fmt T} (slice : list T) (value : T) (message : string) : M unit :=
  found ← runtime (slices_Contains slice value);
  if found : bool
  then abort message ("expected slice to not have " +:+ fmt_v value +:+ ", but it does")
  else mret ().

Definition MapHas `{Equality K, Fmt K} {V} (m : list (K * V)) (key : K) (message : string) : M unit :=
  entry ← runtime (map_lookup m key);
  match entry with
  | None => abort message ("expected map to have key " +:+ fmt_v key +:+ ", but it does not")
  | Some _ => mret ()
  end.

Definition MapNotHas `{Equality K, Fmt K} {V} (m : list (K * V)) (key : K) (message : string) : M unit :=
  entry ← runtime (map_lookup m key);
  match entry with
  | Some _ => abort message ("expected map to not have key " +:+ fmt_v key +:+ ", but it does")
  | None => mret ()
  end.

Definition MapNotEmpty `{Equality K} {V} (m : list (K * V)) (message : string) : M unit :=
  if bool_decide (length m = 0%nat)
  then abort message "expected map to be non-empty, but it is empty"
  else mret ().

Definition MapEmpty `{Equality K} {V} (m : list (K * V)) (message : string) : M unit :=
  if negb (bool_decide (length m = 0%nat))
  then abort message "expected map to be empty, but it is not"
  else mret ().

Definition IsEmpty `{Equality T} (slice : list T) (message : string) : M unit :=
  if negb (bool_decide (length slice = 0%nat))
  then abort message "expected slice to be empty, but it is not"
  else mret ().

End Must.
End must.

(** ** The package API as data *)

Section Api.

Context `{Host}.

(** One constructor per check function, with its arguments. *)
Inductive check : Type :=
  | check_NotNil (value : any) (message : string)
  | check_NoError (err : error) (message : string)
  | check_Error (err : error) (message : string)
  | check_NotEqual {T} `{Equality T, Fmt T} (expected value : T) (message : string)
  | check_Equal {T} `{Equality T, Fmt T} (expected value : T) (message : string)
  | check_True (value : bool) (message : string)
  | check_False (value : bool) (message : string)
  | check_NotZero {T} `{Number T} (value : T) (message : string)
  | check_GreaterThan {T} `{Number T, Fmt T} (value threshold : T) (message : string)
  | check_LessThan {T} `{Number T, Fmt T} (value threshold : T) (message : string)
  | check_GreaterThanOrEqual {T} `{Number T, Fmt T} (value threshold : T) (message : string)
  | check_LessThanOrEqual {T} `{Number T, Fmt T} (value threshold : T) (message : string)
  | check_NotEmpty (value : any) (message : string)
  | check_Empty (value : any) (message : string)
  | check_Contains {T} `{Equality T, Fmt T} (slice : list T) (value : T) (message : string)
  | check_NotContains {T} `{Equality T, Fmt T} (slice : list T) (value : T) (message : string)
  | check_IsNil (value : any) (message : string)
  | check_IsNotNil (value : any) (message : string)
  | check_FileExists (path message : string)
  | check_DirExists (path message : string)
  | check_TypeOf (T : gotype) (value : any) (message : string)
  | check_TypeOfNot (T : gotype) (value : any) (message : string)
  | check_PointsToSame {T} `{Equality T, Fmt T} (a b : pointer T) (message : string)
  | check_PointsToNotSame {T} `{Equality T, Fmt T} (a b : pointer T) (message : string)
  | check_SliceHas {T} `{Equality T, Fmt T} (slice : list T) (value : T) (message : string)
  | check_SliceNotHas {T} `{Equality T, Fmt T} (slice : list T) (value : T) (message : string)
  | check_MapHas {K} `{Equality K, Fmt K} {V} (m : list (K * V)) (key : K) (message : string)
  | check_MapNotHas {K} `{Equality K, Fmt K} {V} (m : list (K * V)) (key : K) (message : string)
  | check_MapNotEmpty {K} `{Equality K} {V} (m : list (K * V)) (message : string)
  | check_MapEmpty {K} `{Equality K} {V} (m : list (K * V)) (message : string)
  | check_IsEmpty {T} `{Equality T} (slice : list T) (message : string).

Definition message_of (c : check) : string :=
  match c with
  | check_NotNil _ message | check_NoError _ message | check_Error _ message
  | check_NotEqual _ _ message | check_Equal _ _ message
  | check_True _ message | check_False _ message | check_NotZero _ message
  | check_GreaterThan _ _ message | check_LessThan _ _ message
  | check_GreaterThanOrEqual _ _ message | check_LessThanOrEqual _ _ message
  | check_NotEmpty _ message | check_Empty _ message
  | check_Contains _ _ message | check_NotContains _ _ message
  | check_IsNil _ message | check_IsNotNil _ message
  | check_FileExists _ message | check_DirExists _ message
  | check_TypeOf _ _ message | check_TypeOfNot _ _ message
  | check_PointsToSame _ _ message | check_PointsToNotSame _ _ message
  | check_SliceHas _ _ message | check_SliceNotHas _ _ message
  | check_MapHas _ _ message | check_MapNotHas _ _ message
  | check_MapNotEmpty _ message | check_MapEmpty _ message
  | check_IsEmpty _ message => message
  end.

Definition run_check (c : check) : must.M unit :=
  match c with
  | check_NotNil value message => must.NotNil value message
  | check_NoError err message => must.NoError err message
  | check_Error err message => must.Error err message
  | check_NotEqual expected value message => must.NotEqual expected value message
  | check_Equal expected value message => must.Equal expected value message
  | check_True value message => must.True value message
  | check_False value message => must.False value message
  | check_NotZero value message => must.NotZero value message
  | check_GreaterThan value threshold message => must.GreaterThan value threshold message
  | check_LessThan value threshold message => must.LessThan value threshold message
  | check_GreaterThanOrEqual value threshold message => must.GreaterThanOrEqual value threshold message
  | check_LessThanOrEqual value threshold message => must.LessThanOrEqual value threshold message
  | check_NotEmpty value message => must.NotEmpty value message
  | check_Empty value message => must.Empty value message
  | check_Contains slice value message => must.Contains slice value message
  | check_NotContains slice value message => must.NotContains slice value message
  | check_IsNil value message => must.IsNil value message
  | check_IsNotNil value message => must.IsNotNil value message
  | check_FileExists path message => must.FileExists path message
  | check_DirExists path message => must.DirExists path message
  | check_TypeOf T value message => must.TypeOf T value message
  | check_TypeOfNot T value message => must.TypeOfNot T value message
  | check_PointsToSame a b message => must.PointsToSame a b message
  | check_PointsToNotSame a b message => must.PointsToNotSame a b message
  | check_SliceHas slice value message => must.SliceHas slice value message
  | check_SliceNotHas slice value message => must.SliceNotHas slice value message
  | check_MapHas m key message => must.MapHas m key message
  | check_MapNotHas m key message => must.MapNotHas m key message
  | check_MapNotEmpty m message => must.MapNotEmpty m message
  | check_MapEmpty m message => must.MapEmpty m message
  | check_IsEmpty slice message => must.IsEmpty slice message
  end.

(** The condition a check requires, as the guards of its [if]
    statements test it in the state the check is called in: whether it
    holds, or the runtime error that evaluating it ends in. *)
Definition condition (c : check) (s : state OnFailure W) : result bool :=
  match c with
  | check_NotNil value _ =>
      Ok (negb (must.is_nil_interface value)
          && negb (bool_decide (data (must.efaceOf value) = None)
                   && negb (bool_decide (_type (must.efaceOf value) = None))))
  | check_NoError err _ => Ok (match err with nil_error => true | an_error _ => false end)
  | check_Error err _ => Ok (match err with nil_error => false | an_error _ => true end)
  | check_NotEqual expected value _ => result_map negb (go_equal expected value)
  | check_Equal expected value _ => go_equal expected value
  | check_True value _ => Ok value
  | check_False value _ => Ok (negb value)
  | check_NotZero value _ => Ok (negb (num_eq value num_zero))
  | check_GreaterThan value threshold _ => Ok (negb (num_le value threshold))
  | check_LessThan value threshold _ => Ok (negb (num_ge value threshold))
  | check_GreaterThanOrEqual value threshold _ => Ok (negb (num_lt value threshold))
  | check_LessThanOrEqual value threshold _ => Ok (negb (num_gt value threshold))
  | check_NotEmpty value _ =>
      match value with
      | VMap TAny TAny v => Ok (negb (must.len v =? 0))
      | VSlice TAny v => Ok (negb (must.len v =? 0))
      | VString v => Ok (negb (bool_decide (v = "")))
      | _ => Ok false
      end
  | check_Empty value _ =>
      match value with
      | VMap TAny TAny v => Ok (must.len v =? 0)
      | VSlice TAny v => Ok (must.len v =? 0)
      | VString v => Ok (bool_decide (v = ""))
      | _ => Ok false
      end
  | check_Contains slice value _ => slices_Contains slice value
  | check_NotContains slice value _ => result_map negb (slices_Contains slice value)
  | check_IsNil value _ => Ok (must.is_nil_interface value)
  | check_IsNotNil value _ => Ok (negb (must.is_nil_interface value))
  | check_FileExists path _ => Ok (negb (os_IsNotExist (err_of (os_Stat (world s) path))))
  | check_DirExists path _ =>
      Ok (match os_Stat (world s) path with
          | StatOk info => IsDir info
          | StatErr err => negb (os_IsNotExist (Some err))
          end)
  | check_TypeOf T value _ => Ok (must.type_assert value T)
  | check_TypeOfNot T value _ => Ok (negb (must.type_assert value T))
  | check_PointsToSame a b _ =>
      match a, b with
      | pointer_to _ x, pointer_to _ y => go_equal x y
      | _, _ => Ok false
      end
  | check_PointsToNotSame a b _ =>
      match a, b with
      | pointer_to _ x, pointer_to _ y => result_map negb (go_equal x y)
      | _, _ => Ok false
      end
  | check_SliceHas slice value _ => slices_Contains slice value
  | check_SliceNotHas slice value _ => result_map negb (slices_Contains slice value)
  | check_MapHas m key _ => result_map (λ entry, bool_decide (is_Some entry)) (map_lookup m key)
  | check_MapNotHas m key _ =>
      result_map (λ entry, negb (bool_decide (is_Some entry))) (map_lookup m key)
  | check_MapNotEmpty m _ => Ok (negb (bool_decide (length m = 0%nat)))
  | check_MapEmpty m _ => Ok (bool_decide (length m = 0%nat))
  | check_IsEmpty slice _ => Ok (bool_decide (length slice = 0%nat))
  end.

(** The runtime error, if any, that evaluating the condition ends in. *)
Definition runtime_error (c : check) (s : state OnFailure W) : option string :=
  match condition c s with
  | Ok _ => None
  | RuntimePanic text => Some text
  end.

(** The checks that use [==] at a type parameter, or look a key up in a
    map. *)
Definition compares (c : check) : bool :=
  match c with
  | check_NotEqual _ _ _ | check_Equal _ _ _
  | check_Contains _ _ _ | check_NotContains _ _ _
  | check_PointsToSame _ _ _ | check_PointsToNotSame _ _ _
  | check_SliceHas _ _ _ | check_SliceNotHas _ _ _
  | check_MapHas _ _ _ | check_MapNotHas _ _ _ => true
  | _ => false
  end.

(** Everything a caller can ask of the package. *)
Inductive operation : Type :=
  | op_register (f : OnFailure)
  | op_check (c : check).

Definition exec (o : operation) : must.M unit :=
  match o with
  | op_register f => must.RegisterFailureHandler f
  | op_check c => run_check c
  end.

(** The state an outcome leaves. *)
Definition state_of {A} (r : outcome OnFailure W A) : state OnFailure W :=
  match r with
  | Returned _ s | Panicked _ s | Stopped s => s
  end.

(** The state after a sequence of operations; the caller may recover from
    the panic of one and go on with the next. *)
Definition after_all (os : list operation) (s : state OnFailure W) : state OnFailure W :=
  foldl (λ s o, state_of (exec o s)) s os.

(** The state after abort's loop has called the handlers [fs] one after
    the other. *)
Definition called (fs : list OnFailure) (message details : string)
    (s : state OnFailure W) : state OnFailure W :=
  foldl (λ s f, state_of (must.call f message details s)) s fs.

(** How the call of handler number [i] of [fs] ends, in the state that
    the calls of the handlers before it leave. *)
Definition completion_at (fs : list OnFailure) (i : nat) (message details : string)
    (s : state OnFailure W) : option completion :=
  f ← fs !! i;
  Some (hr_completion (run f message details (called (take i fs) message details s))).

(** A caller that registers handlers one after the other. *)
Fixpoint register_all (fs : list OnFailure) : must.M unit :=
  match fs with
  | [] => mret ()
  | f :: rest => must.RegisterFailureHandler f ;; register_all rest
  end.

(** A caller that makes one check after the other. *)
Fixpoint run_all (cs : list check) : must.M unit :=
  match cs with
  | [] => mret ()
  | c :: rest => run_check c ;; run_all rest
  end.

(** The values the type switch of NotEmpty and Empty has a case for. *)
Definition in_type_switch (value : any) : bool :=
  match value with
  | VMap TAny TAny _ | VSlice TAny _ | VString _ => true
  | _ => false
  end.

(** A check passes where it returns in the state it was called in, and
    fails where it reaches abort with its message. *)
Definition passes (c : must.M unit) (s : state OnFailure W) : Prop :=
  c s = Returned () s.
Definition fails (c : must.M unit) (message : string) (s : state OnFailure W) : Prop :=
  ∃ details, c s = must.abort message details s.

End Api.

(** ** A sample host *)

(** Handlers are numbered: handler 0 panics, handler 1 writes a line to a
    log and returns, every other handler registers handler 1 and returns.
    The world is the log; the file system has a file, a directory and a
    directory that may not be searched.  A finite float64 is printed as
    its mantissa, the letter p and its binary exponent. *)
Definition sample_run (f : nat) (message details : string)
    (s : state nat (list string)) : handler_run nat (list string) :=
  match f with
  | 0%nat => {| hr_registered := []; hr_world := world s;
                hr_completion := Panics (VString "handler failed") |}
  | 1%nat => {| hr_registered := []; hr_world := world s ++ [message +:+ ": " +:+ details];
                hr_completion := Returns |}
  | _ => {| hr_registered := [1%nat]; hr_world := world s; hr_completion := Returns |}
  end.

Definition sample_Stat (w : list string) (path : string) : stat_result :=
  if bool_decide (path = "/tmp/must-test-file.txt") then StatOk {| IsDir := false |}
  else if bool_decide (path = "/tmp/must-test-dir") then StatOk {| IsDir := true |}
  else if bool_decide (path = "/root/private/file") then StatErr EACCES
  else StatErr ENOENT.

Definition sample_fmt_float64 (f : float64) : string :=
  match f with
  | S754_nan => "NaN"
  | S754_infinity s => if s then "-Inf" else "+Inf"
  | S754_zero s => if s then "-0" else "0"
  | S754_finite s m e => (if s then "-" else "") +:+ pretty (Zpos m) +:+ "p" +:+ pretty e
  end.

Definition sample_fmt_pointer (p : unsafe_Pointer) : string :=
  match p with
  | None => "<nil>"
  | Some a => HexString.of_N a
  end.

(** The elements of a slice, array or struct between brackets, the
    entries of a map in the order they are held in. *)
Fixpoint sample_fmt_any (v : any) : string :=
  match v with
  | VNil => "<nil>"
  | VBool b => if b then "true" else "false"
  | VInt n => pretty n
  | VFloat64 f => sample_fmt_float64 f
  | VString s => s
  | VRuntimeError text => "runtime error: " +:+ text
  | VPtr _ p | VChan _ p | VFunc _ p | VUnsafePointer p => sample_fmt_pointer p
  | VSlice _ None => "[]"
  | VSlice _ (Some elems) | VArray _ elems =>
      "[" +:+ (fix each (elems : list any) : string :=
                 match elems with
                 | [] => ""
                 | [a] => sample_fmt_any a
                 | a :: rest => sample_fmt_any a +:+ " " +:+ each rest
                 end) elems +:+ "]"
  | VMap _ _ None => "map[]"
  | VMap _ _ (Some entries) =>
      "map[" +:+ (fix each (entries : list (any * any)) : string :=
                    match entries with
                    | [] => ""
                    | [(k, a)] => sample_fmt_any k +:+ ":" +:+ sample_fmt_any a
                    | (k, a) :: rest =>
                        sample_fmt_any k +:+ ":" +:+ sample_fmt_any a +:+ " " +:+ each rest
                    end) entries +:+ "]"
  | VStruct fields =>
      "{" +:+ (fix each (fields : list (string * gotype * any)) : string :=
                 match fields with
                 | [] => ""
                 | [(_, a)] => sample_fmt_any a
                 | (_, a) :: rest => sample_fmt_any a +:+ " " +:+ each rest
                 end) fields +:+ "}"
  | VDefined _ v => sample_fmt_any v
  end.

Definition sample_host : Host :=
  {| OnFailure := nat;
     W := list string;
     run := sample_run;
     storage := λ _, 4096%N;
     os_Stat := sample_Stat;
     implements := λ _ _, false;
     fmt_float64 := sample_fmt_float64;
     fmt_any := sample_fmt_any |}.

(** A state of the sample host with the given handlers registered. *)
Definition registered (fs : list nat) : state nat (list string) :=
  {| failureHandlers := fs; calls := []; world := [] |}.

(** * Properties *)

Section Theory.

Context `{Host}.

Implicit Types (s : state OnFailure W) (message details : string).

(** ** The monad *)

Lemma bind_returned {A B} (c : must.M A) (k : A → must.M B) s a s' :
  c s = Returned a s' → (c ≫= k) s = k a s'.
Proof. unfold mbind, must.M_bind. by intros ->. Qed.

Lemma bind_panicked {A B} (c : must.M A) (k : A → must.M B) s p s' :
  c s = Panicked p s' → (c ≫= k) s = Panicked p s'.
Proof. unfold mbind, must.M_bind. by intros ->. Qed.

Lemma bind_stopped {A B} (c : must.M A) (k : A → must.M B) s s' :
  c s = Stopped s' → (c ≫= k) s = Stopped s'.
Proof. unfold mbind, must.M_bind. by intros ->. Qed.

Lemma ret_bind {A B} (a : A) (k : A → must.M B) s : (mret a ≫= k) s = k a s.
Proof. reflexivity. Qed.

(** ** The dispatch loop *)

(** A call of a handler logs itself and keeps every registered handler. *)
Lemma call_effect f message details s :
  calls (state_of (must.call f message details s)) = calls s ++ [(f, message, details)] ∧
  failureHandlers s `prefix_of` failureHandlers (state_of (must.call f message details s)).
Proof.
  unfold must.call. destruct (hr_completion _); simpl;
    (split; [done | by apply prefix_app_r]).
Qed.

(** The loop calls a prefix of the handlers it ranges over, in their
    order, once each; all of them when it returns. *)
Lemma range_call_effect fs message details s :
  ∃ k, k `prefix_of` fs ∧
       calls (state_of (must.range_call fs message details s))
       = calls s ++ map (λ f, (f, message, details)) k ∧
       failureHandlers s `prefix_of`
         failureHandlers (state_of (must.range_call fs message details s)) ∧
       ((∃ s', must.range_call fs message details s = Returned () s') → k = fs).
Proof.
  revert s. induction fs as [|f fs IH]; intros s.
  - exists []. simpl. rewrite app_nil_r. repeat split; done.
  - destruct (call_effect f message details s) as [Hc Hp].
    cbn [must.range_call].
    destruct (must.call f message details s) as [[] s1|p s1|s1] eqn:E; simpl in Hc, Hp.
    + rewrite (bind_returned _ _ _ _ _ E).
      destruct (IH s1) as (k & Hk & Hcalls & Hpre & Hall).
      exists (f :: k). split; [by apply prefix_cons|].
      split; [|split].
      * rewrite Hcalls, Hc. simpl. by rewrite <- app_assoc.
      * by etrans.
      * intros Hr. f_equal. by apply Hall.
    + rewrite (bind_panicked _ _ _ _ _ E).
      exists [f]. split; [apply prefix_cons, prefix_nil|].
      simpl. repeat split; try done. intros [s' [=]].
    + rewrite (bind_stopped _ _ _ _ E).
      exists [f]. split; [apply prefix_cons, prefix_nil|].
      simpl. repeat split; try done. intros [s' [=]].
Qed.

(** Handlers that return let the loop return. *)
Lemma range_call_returns fs message details s :
  (∀ f s0, f ∈ fs → hr_completion (run f message details s0) = Returns) →
  ∃ s', must.range_call fs message details s = Returned () s'.
Proof.
  revert s. induction fs as [|f fs IH]; intros s Hret.
  - by exists s.
  - cbn [must.range_call].
    assert (∃ s1, must.call f message details s = Returned () s1) as [s1 E].
    { unfold must.call. rewrite (Hret f s) by apply list_elem_of_here. eauto. }
    rewrite (bind_returned _ _ _ _ _ E).
    apply IH. intros g s0 Hg. apply Hret. by apply list_elem_of_further.
Qed.

(** abort ends in a panic, unless a handler never gives control back. *)
Lemma abort_cases message details s :
  (∃ p s', must.abort message details s = Panicked p s') ∨
  (∃ s', must.abort message details s = Stopped s').
Proof.
  unfold must.abort.
  destruct (must.range_call (failureHandlers s) message details s) as [[] s1|p s1|s1] eqn:E.
  - rewrite (bind_returned _ _ _ _ _ E). unfold must.panic. eauto.
  - rewrite (bind_panicked _ _ _ _ _ E). eauto.
  - rewrite (bind_stopped _ _ _ _ E). eauto.
Qed.

Lemma abort_never_returns message details s (a : unit) s' :
  must.abort message details s ≠ Returned a s'.
Proof. by destruct (abort_cases message details s) as [(p & s1 & ->) | (s1 & ->)]. Qed.

(** A check cannot both pass and fail. *)
Lemma passes_not_fails (c : must.M unit) message s : passes c s → ¬ fails c message s.
Proof.
  unfold passes, fails. intros Hp [details Hf]. rewrite Hf in Hp.
  by apply abort_never_returns in Hp.
Qed.

Lemma abort_keeps_handlers message details s :
  failureHandlers s `prefix_of` failureHandlers (state_of (must.abort message details s)).
Proof.
  unfold must.abort.
  destruct (range_call_effect (failureHandlers s) message details s) as (k & _ & _ & Hp & _).
  destruct (must.range_call (failureHandlers s) message details s) as [[] s1|p s1|s1] eqn:E.
  - by rewrite (bind_returned _ _ _ _ _ E).
  - by rewrite (bind_panicked _ _ _ _ _ E).
  - by rewrite (bind_stopped _ _ _ _ E).
Qed.

(** The calls that [called] logs. *)
Lemma called_calls fs message details s :
  calls (called fs message details s) = calls s ++ map (λ f, (f, message, details)) fs.
Proof.
  revert s. induction fs as [|f fs IH]; intros s.
  - simpl. by rewrite app_nil_r.
  - change (called (f :: fs) message details s)
      with (called fs message details (state_of (must.call f message details s))).
    rewrite IH. destruct (call_effect f message details s) as [-> _].
    simpl. by rewrite <- app_assoc.
Qed.

(** While the handlers return, the loop goes on to the next one. *)
Lemma range_call_all fs message details s :
  (∀ i, (i < length fs)%nat → completion_at fs i message details s = Some Returns) →
  must.range_call fs message details s = Returned () (called fs message details s).
Proof.
  revert s. induction fs as [|f fs IH]; intros s Hret; [done|].
  cbn [must.range_call].
  assert (must.call f message details s
          = Returned () (state_of (must.call f message details s))) as E.
  { pose proof (Hret 0%nat ltac:(simpl; lia)) as H0. unfold completion_at in H0.
    simpl in H0. injection H0 as H0. unfold must.call. by rewrite H0. }
  rewrite (bind_returned _ _ _ _ _ E). rewrite IH; [done|].
  intros i Hi. apply (Hret (S i)). simpl. lia.
Qed.

(** The loop ends at the first handler that does not return, and ends as
    that handler ends. *)
Lemma range_call_stop fs i c message details s :
  completion_at fs i message details s = Some c →
  c ≠ Returns →
  (∀ j, (j < i)%nat → completion_at fs j message details s = Some Returns) →
  must.range_call fs message details s
  = match c with
    | Panics p => Panicked p (called (take (S i) fs) message details s)
    | _ => Stopped (called (take (S i) fs) message details s)
    end.
Proof.
  revert s i. induction fs as [|f fs IH]; intros s i Hc Hne Hbefore.
  - unfold completion_at in Hc. by rewrite lookup_nil in Hc.
  - cbn [must.range_call]. destruct i as [|i].
    + unfold completion_at in Hc. simpl in Hc. injection Hc as Hc.
      assert (must.call f message details s
              = match c with
                | Panics p => Panicked p (state_of (must.call f message details s))
                | _ => Stopped (state_of (must.call f message details s))
                end) as E.
      { unfold must.call. rewrite Hc. by destruct c. }
      destruct c as [|p|]; [done| |].
      * by rewrite (bind_panicked _ _ _ _ _ E).
      * by rewrite (bind_stopped _ _ _ _ E).
    + assert (must.call f message details s
              = Returned () (state_of (must.call f message details s))) as E.
      { pose proof (Hbefore 0%nat ltac:(lia)) as H0. unfold completion_at in H0.
        simpl in H0. injection H0 as H0. unfold must.call. by rewrite H0. }
      rewrite (bind_returned _ _ _ _ _ E).
      apply (IH (state_of (must.call f message details s)) i); [done..|].
      intros j Hj. apply (Hbefore (S j)). lia.
Qed.

(** C1 (as amended): abort never returns normally.  Its loop calls the
    handlers registered when abort is entered, in registration order and
    once each with (message, details).  When every one of them returns,
    all of them have been called and abort panics with the string
    message: details.  When one does not return, the loop ends with the
    first such handler: the handlers before it and that handler have been
    called, no later one has, and abort ends as that handler ends, with
    its panic if it panics. *)
Theorem abort_spec message details s :
  (∀ a s', must.abort message details s ≠ Returned a s') ∧
  (∀ fs, calls (called fs message details s)
         = calls s ++ map (λ f, (f, message, details)) fs) ∧
  ((∀ i, (i < length (failureHandlers s))%nat →
         completion_at (failureHandlers s) i message details s = Some Returns) →
   must.abort message details s
   = Panicked (VString (message +:+ ": " +:+ details))
       (called (failureHandlers s) message details s)) ∧
  (∀ i c,
     completion_at (failureHandlers s) i message details s = Some c →
     c ≠ Returns →
     (∀ j, (j < i)%nat →
           completion_at (failureHandlers s) j message details s = Some Returns) →
     must.abort message details s
     = match c with
       | Panics p =>
           Panicked p (called (take (S i) (failureHandlers s)) message details s)
       | _ => Stopped (called (take (S i) (failureHandlers s)) message details s)
       end) ∧
  ((∀ f s0, f ∈ failureHandlers s → hr_completion (run f message details s0) = Returns) →
   ∃ s', must.abort message details s
         = Panicked (VString (message +:+ ": " +:+ details)) s' ∧
         calls s' = calls s ++ map (λ f, (f, message, details)) (failureHandlers s)).
Proof.
  split; [intros a s'; apply abort_never_returns|].
  split; [intros fs; apply called_calls|].
  assert ((∀ i, (i < length (failureHandlers s))%nat →
            completion_at (failureHandlers s) i message details s = Some Returns) →
          must.abort message details s
          = Panicked (VString (message +:+ ": " +:+ details))
              (called (failureHandlers s) message details s)) as Hall.
  { intros Hret. unfold must.abort.
    by rewrite (bind_returned _ _ _ _ _
                  (range_call_all (failureHandlers s) message details s Hret)). }
  split; [exact Hall|]. split.
  - intros i c Hc Hne Hbefore. unfold must.abort.
    pose proof (range_call_stop (failureHandlers s) i c message details s Hc Hne Hbefore) as E.
    destruct c as [|p|]; [done| |].
    + by rewrite (bind_panicked _ _ _ _ _ E).
    + by rewrite (bind_stopped _ _ _ _ E).
  - intros Hret. eexists. split; [|apply called_calls].
    apply Hall. intros i Hi. unfold completion_at.
    destruct (lookup_lt_is_Some_2 (failureHandlers s) i Hi) as [f Hf].
    rewrite Hf. simpl. f_equal. apply Hret. by eapply list_elem_of_lookup_2.
Qed.

(** ** The outcomes of a check *)

(** Code after a call of abort is not reached. *)
Lemma abort_then message details (k : unit → must.M unit) s :
  (must.abort message details ≫= k) s = must.abort message details s.
Proof.
  destruct (abort_cases message details s) as [(p & s' & E) | (s' & E)].
  - by rewrite (bind_panicked _ _ _ _ _ E).
  - by rewrite (bind_stopped _ _ _ _ E).
Qed.

Lemma Stat_bind {B} path (k : stat_result → must.M B) s :
  (must.Stat path ≫= k) s = k (os_Stat (world s) path) s.
Proof. reflexivity. Qed.

Lemma bind_assoc {A B C} (c : must.M A) (k1 : A → must.M B) (k2 : B → must.M C) s :
  ((c ≫= k1) ≫= k2) s = (c ≫= λ a, k1 a ≫= k2) s.
Proof. unfold mbind, must.M_bind. by destruct (c s). Qed.

Lemma runtime_bind {A B} (r : result A) (k : A → must.M B) s :
  (must.runtime r ≫= k) s
  = match r with
    | Ok a => k a s
    | RuntimePanic text => Panicked (VRuntimeError text) s
    end.
Proof. by destruct r. Qed.

Ltac run_monad :=
  repeat first
    [ rewrite abort_then
    | rewrite ret_bind
    | rewrite runtime_bind
    | rewrite bind_assoc
    | rewrite Stat_bind
    | progress cbn [must.deref os_IsNotExist err_of IsDir negb
                    go_equal go_hash comparable_equality] ].

Ltac three_outcomes :=
  run_monad; simpl; first [ reflexivity | eexists; reflexivity ].

(** NotNil aborts on the nil interface, and on a value that the
    interface keeps in its data word when that word is nil. *)
Lemma NotNil_cases (value : any) message s :
  must.NotNil value message s =
    match type_of value with
    | None => must.abort message "expected a non-nil value, got nil" s
    | Some t =>
        if is_direct_iface t && bool_decide (must.data_word value = None)
        then must.abort message
               ("expected a non-nil value, got nil pointer of type " +:+ type_name t) s
        else Returned () s
    end.
Proof.
  unfold must.NotNil. destruct (must.is_nil_interface value) eqn:Enil.
  - destruct value; try discriminate Enil. by run_monad.
  - run_monad. unfold must.efaceOf, fmt_T. cbn [data _type].
    destruct (type_of value) as [t|] eqn:Et; [|by destruct value].
    destruct (is_direct_iface t); simpl; [|done].
    rewrite andb_true_r. by destruct (bool_decide (must.data_word value = None)).
Qed.

Lemma run_check_condition (c : check) s :
  match condition c s with
  | Ok true => run_check c s = Returned () s
  | Ok false => ∃ details, run_check c s = must.abort (message_of c) details s
  | RuntimePanic text => run_check c s = Panicked (VRuntimeError text) s
  end.
Proof.
  destruct c; cbn [run_check message_of condition].
  - rewrite NotNil_cases. unfold must.efaceOf. cbn [data _type].
    destruct (type_of value) as [t|] eqn:Et.
    + replace (must.is_nil_interface value) with false by (by destruct value).
      destruct (is_direct_iface t); simpl; [|done].
      rewrite andb_true_r.
      destruct (bool_decide (must.data_word value = None)); three_outcomes.
    + replace (must.is_nil_interface value) with true by (by destruct value).
      three_outcomes.
  - destruct err; three_outcomes.
  - destruct err; three_outcomes.
  - unfold must.NotEqual. rewrite runtime_bind.
    destruct (go_equal _ _) as [[]|]; three_outcomes.
  - unfold must.Equal. rewrite runtime_bind.
    destruct (go_equal _ _) as [[]|]; three_outcomes.
  - destruct value; three_outcomes.
  - destruct value; three_outcomes.
  - unfold must.NotZero. destruct (num_eq _ _); three_outcomes.
  - unfold must.GreaterThan. destruct (num_le _ _); three_outcomes.
  - unfold must.LessThan. destruct (num_ge _ _); three_outcomes.
  - unfold must.GreaterThanOrEqual. destruct (num_lt _ _); three_outcomes.
  - unfold must.LessThanOrEqual. destruct (num_gt _ _); three_outcomes.
  - unfold must.NotEmpty.
    destruct value as [| | | | | | |[]|[] []| | | | | |]; try three_outcomes;
      first [destruct (must.len _ =? 0) | destruct (bool_decide _)]; three_outcomes.
  - unfold must.Empty.
    destruct value as [| | | | | | |[]|[] []| | | | | |]; try three_outcomes;
      first [destruct (must.len _ =? 0) | destruct (bool_decide _)]; three_outcomes.
  - unfold must.Contains. rewrite runtime_bind.
    destruct (slices_Contains _ _) as [[]|]; three_outcomes.
  - unfold must.NotContains. rewrite runtime_bind.
    destruct (slices_Contains _ _) as [[]|]; three_outcomes.
  - unfold must.IsNil. destruct (must.is_nil_interface _); three_outcomes.
  - unfold must.IsNotNil. destruct (must.is_nil_interface _); three_outcomes.
  - unfold must.FileExists. run_monad. destruct (os_IsNotExist _); three_outcomes.
  - unfold must.DirExists.
    destruct (os_Stat (world s) path) as [[[]]|err] eqn:E;
      repeat (run_monad; rewrite ?E); try three_outcomes.
    destruct (err =? ENOENT)%N; repeat (run_monad; rewrite ?E); three_outcomes.
  - unfold must.TypeOf. destruct (must.type_assert _ _); three_outcomes.
  - unfold must.TypeOfNot. destruct (must.type_assert _ _); three_outcomes.
  - unfold must.PointsToSame. destruct a, b; cbn [is_nil_pointer orb]; try three_outcomes.
    run_monad. destruct (go_equal _ _) as [[]|]; three_outcomes.
  - unfold must.PointsToNotSame. destruct a, b; cbn [is_nil_pointer orb]; try three_outcomes.
    run_monad. destruct (go_equal _ _) as [[]|]; three_outcomes.
  - unfold must.SliceHas. rewrite runtime_bind.
    destruct (slices_Contains _ _) as [[]|]; three_outcomes.
  - unfold must.SliceNotHas. rewrite runtime_bind.
    destruct (slices_Contains _ _) as [[]|]; three_outcomes.
  - unfold must.MapHas. rewrite runtime_bind.
    destruct (map_lookup _ _) as [[]|]; three_outcomes.
  - unfold must.MapNotHas. rewrite runtime_bind.
    destruct (map_lookup _ _) as [[]|]; three_outcomes.
  - unfold must.MapNotEmpty. destruct (bool_decide _); three_outcomes.
  - unfold must.MapEmpty. destruct (bool_decide _); three_outcomes.
  - unfold must.IsEmpty. destruct (bool_decide _); three_outcomes.
Qed.

(** A check returns in the state it was called in, or reaches abort with
    its own message, or ends in the runtime error of its condition. *)
Lemma run_check_cases (c : check) s :
  run_check c s = Returned () s ∨
  (∃ details, run_check c s = must.abort (message_of c) details s) ∨
  (∃ text, runtime_error c s = Some text ∧
           run_check c s = Panicked (VRuntimeError text) s).
Proof.
  pose proof (run_check_condition c s) as Hc. unfold runtime_error.
  destruct (condition c s) as [[]|text]; eauto.
Qed.

(** abort does not end in a runtime error in the state it was entered
    in: without handlers it panics with a string, and a handler that is
    called is logged. *)
Lemma abort_not_runtime_error message details text s :
  must.abort message details s ≠ Panicked (VRuntimeError text) s.
Proof.
  unfold must.abort. destruct (failureHandlers s) as [|f fs] eqn:Ef; [done|].
  intros Heq. apply (f_equal state_of), (f_equal calls), (f_equal length) in Heq.
  revert Heq. cbn [must.range_call state_of].
  destruct (call_effect f message details s) as [Hc _].
  destruct (must.call f message details s) as [[] s1|p s1|s1] eqn:E; simpl in Hc.
  - rewrite bind_assoc, (bind_returned _ _ _ _ _ E).
    destruct (range_call_effect fs message details s1) as (k & _ & Hk & _).
    destruct (must.range_call fs message details s1) as [[] s2|p s2|s2] eqn:E2;
      simpl in Hk;
      [rewrite (bind_returned _ _ _ _ _ E2)
      |rewrite (bind_panicked _ _ _ _ _ E2)
      |rewrite (bind_stopped _ _ _ _ E2)];
      simpl; rewrite Hk, Hc, !length_app; simpl; lia.
  - rewrite bind_assoc, (bind_panicked _ _ _ _ _ E). simpl.
    rewrite Hc, length_app. simpl. lia.
  - rewrite bind_assoc, (bind_stopped _ _ _ _ E). simpl.
    rewrite Hc, length_app. simpl. lia.
Qed.

(** C8 (as amended): the condition of a check tells its outcomes apart,
    and there are three.  Where the condition holds, the check returns,
    and the state it leaves is the state it was called in: no handler
    was called, the registry and the world are as before.  Where the
    condition does not hold, the check reaches abort with its own
    message and does not return.  Where evaluating the condition ends in
    a runtime error, the check panics with that error in the state it was
    called in: it neither returns nor reaches abort, and no handler is
    called.  Only the checks that compare at a type parameter or look a
    key up in a map can end so; every other check has the first two
    outcomes only.  The result type is unit: no error value is handed
    back. *)
Theorem check_outcomes (c : check) s :
  (condition c s = Ok true →
   run_check c s = Returned () s ∧ ¬ fails (run_check c) (message_of c) s) ∧
  (condition c s = Ok false →
   ∃ details,
     run_check c s = must.abort (message_of c) details s ∧
     ∀ a s', run_check c s ≠ Returned a s') ∧
  (∀ text, condition c s = RuntimePanic text →
     run_check c s = Panicked (VRuntimeError text) s ∧
     ¬ passes (run_check c) s ∧
     ¬ fails (run_check c) (message_of c) s) ∧
  (compares c = false → ∃ holds, condition c s = Ok holds).
Proof.
  pose proof (run_check_condition c s) as Hc.
  split; [|split; [|split]].
  - intros E. rewrite E in Hc. split; [done|]. by apply passes_not_fails.
  - intros E. rewrite E in Hc. destruct Hc as [details Hf].
    exists details. split; [done|]. intros a s'. rewrite Hf.
    apply abort_never_returns.
  - intros text E. rewrite E in Hc. split; [done|]. unfold passes, fails.
    rewrite Hc. split; [done|]. intros [details Hf]. symmetry in Hf.
    by apply abort_not_runtime_error in Hf.
  - destruct c; try discriminate; intros _; cbn [condition]; eauto.
    + destruct value as [| | | | | | |[]|[] []| | | | | |]; eauto.
    + destruct value as [| | | | | | |[]|[] []| | | | | |]; eauto.
Qed.

(** ** The registry *)

Lemma exec_keeps_handlers (o : operation) s :
  failureHandlers s `prefix_of` failureHandlers (state_of (exec o s)).
Proof.
  destruct o as [f|c]; simpl.
  - by apply prefix_app_r.
  - destruct (run_check_cases c s) as [-> | [[details ->] | (text & _ & ->)]]; [done| |done].
    apply abort_keeps_handlers.
Qed.

(** C9: RegisterFailureHandler returns, having put the handler at the end
    of the registry and changed nothing else; and whatever the package is
    asked to do, once or many times, the handlers registered before are
    still there afterwards, at the same places. *)
Theorem registry_append_only :
  (∀ f s, must.RegisterFailureHandler f s
          = Returned () {| failureHandlers := failureHandlers s ++ [f];
                           calls := calls s;
                           world := world s |}) ∧
  (∀ o s, failureHandlers s `prefix_of` failureHandlers (state_of (exec o s))) ∧
  (∀ os s, failureHandlers s `prefix_of` failureHandlers (after_all os s)).
Proof.
  split; [done|]. split; [apply exec_keeps_handlers|].
  intros os. induction os as [|o os IH]; intros s; simpl; [done|].
  etrans; [apply (exec_keeps_handlers o)|apply IH].
Qed.

(** ** NotNil *)



(** ** NotEmpty and Empty *)

(** A value the switch has no case for takes the default branch. *)
Lemma NotEmpty_Empty_default (value : any) message s :
  in_type_switch value = false →
  must.NotEmpty value message s
  = must.abort message ("expected a map, slice or string, got " +:+ fmt_T value) s ∧
  must.Empty value message s
  = must.abort message ("expected a map, slice or string, got " +:+ fmt_T value) s.
Proof. by destruct value as [| | | | | | |[]|[] []| | | | | |]. Qed.

(** On the three types of the switch one of NotEmpty and Empty passes
    and the other fails. *)
Lemma NotEmpty_Empty_complement (value : any) message s :
  in_type_switch value = true →
  (passes (must.NotEmpty value message) s ↔ fails (must.Empty value message) message s) ∧
  (passes (must.Empty value message) s ↔ fails (must.NotEmpty value message) message s).
Proof.
  unfold passes, fails.
  destruct value as [| | | | | | |[]|[] []| | | | | |]; try done; intros _; simpl.
  1: destruct (bool_decide (s0 = "")).
  3: destruct (must.len elems =? 0).
  5: destruct (must.len entries =? 0).
  all: simpl; split; split; try done; try (by eexists);
    try (intros [d Hd]; symmetry in Hd); try intros Hd;
    by apply abort_never_returns in Hd.
Qed.

(** C3, at the calls of the README: NotEmpty aborts on the non-empty
    []int{1, 2, 3} and on the non-empty map[string]int{"a": 1, "b": 2},
    and so does Empty. *)
Theorem NotEmpty_README_calls message s :
  let ints := VSlice TInt (Some [VInt 1; VInt 2; VInt 3]) in
  let ages := VMap TString TInt (Some [(VString "a", VInt 1); (VString "b", VInt 2)]) in
  must.NotEmpty ints message s
  = must.abort message "expected a map, slice or string, got []int" s ∧
  must.Empty ints message s
  = must.abort message "expected a map, slice or string, got []int" s ∧
  must.NotEmpty ages message s
  = must.abort message "expected a map, slice or string, got map[string]int" s ∧
  must.Empty ages message s
  = must.abort message "expected a map, slice or string, got map[string]int" s.
Proof. done. Qed.

(** C4: a slice whose type is not []any and a map whose type is not
    map[any]any take the default branch of the type switch: NotEmpty and
    Empty both fail on it, with the details that name its type, whatever
    it holds. *)
Theorem NotEmpty_Empty_typed_containers message s :
  (∀ elem elems, elem ≠ TAny →
     let value := VSlice elem elems in
     must.NotEmpty value message s
     = must.abort message ("expected a map, slice or string, got " +:+ fmt_T value) s ∧
     must.Empty value message s
     = must.abort message ("expected a map, slice or string, got " +:+ fmt_T value) s) ∧
  (∀ key elem entries, key ≠ TAny ∨ elem ≠ TAny →
     let value := VMap key elem entries in
     must.NotEmpty value message s
     = must.abort message ("expected a map, slice or string, got " +:+ fmt_T value) s ∧
     must.Empty value message s
     = must.abort message ("expected a map, slice or string, got " +:+ fmt_T value) s).
Proof.
  split.
  - intros elem elems Hne value. apply NotEmpty_Empty_default. by destruct elem.
  - intros key elem entries Hne value. apply NotEmpty_Empty_default.
    destruct key, elem; try done. by destruct Hne.
Qed.

(** ** Numeric comparisons *)

(** Exchanging the operands of a float64 comparison reverses its result. *)
Lemma SFcompare_antisym (x y : float64) :
  SFcompare y x = CompOpp <$> SFcompare x y.
Proof.
  destruct x as [sx|sx| |sx mx ex], y as [sy|sy| |sy my ey]; simpl; try done;
    try (by destruct sx); try (by destruct sy); try (by destruct sx, sy).
  destruct sx, sy; simpl; try done; f_equal.
  all: rewrite (Z.compare_antisym ex ey), !Pos.compare_cont_spec, (Pos.compare_antisym mx my);
    simpl; destruct (ex ?= ey); simpl; try done; by destruct (mx ?= my)%positive.
Qed.

(** Two float64 values neither of which is NaN are ordered. *)
Lemma SFcompare_ordered (x y : float64) :
  x ≠ S754_nan → y ≠ S754_nan → ∃ c, SFcompare x y = Some c.
Proof. destruct x, y; simpl; try done; eauto. Qed.

Lemma SFleb_not_ltb (x y : float64) :
  x ≠ S754_nan → y ≠ S754_nan → SFleb x y = negb (SFltb y x).
Proof.
  intros Hx Hy. unfold SFleb, SFltb. rewrite (SFcompare_antisym x y).
  destruct (SFcompare_ordered x y Hx Hy) as [c ->]. by destruct c.
Qed.

Lemma SFltb_not_leb (x y : float64) :
  x ≠ S754_nan → y ≠ S754_nan → SFltb x y = negb (SFleb y x).
Proof.
  intros Hx Hy. unfold SFleb, SFltb. rewrite (SFcompare_antisym x y).
  destruct (SFcompare_ordered x y Hx Hy) as [c ->]. by destruct c.
Qed.

(** Equal float64 values are ordered both ways, strictly in neither. *)
Lemma SFeqb_order (x y : float64) :
  SFeqb x y = true →
  SFleb x y = true ∧ SFleb y x = true ∧ SFltb x y = false ∧ SFltb y x = false.
Proof.
  unfold SFeqb, SFleb, SFltb. rewrite (SFcompare_antisym x y).
  by destruct (SFcompare x y) as [[]|].
Qed.

Section Comparisons.

Context {T : Type} `{Number T, Fmt T}.

(** Each comparison passes exactly when its guard is false, and fails
    otherwise. *)
Lemma comparison_guards (value threshold : T) message s :
  (passes (must.GreaterThan value threshold message) s ↔ num_le value threshold = false) ∧
  (passes (must.LessThan value threshold message) s ↔ num_ge value threshold = false) ∧
  (passes (must.GreaterThanOrEqual value threshold message) s
   ↔ num_lt value threshold = false) ∧
  (passes (must.LessThanOrEqual value threshold message) s ↔ num_gt value threshold = false).
Proof.
  unfold passes, must.GreaterThan, must.LessThan, must.GreaterThanOrEqual,
    must.LessThanOrEqual.
  repeat split; try (by intros ->).
  - destruct (num_le _ _); [intros E; by apply abort_never_returns in E | done].
  - destruct (num_ge _ _); [intros E; by apply abort_never_returns in E | done].
  - destruct (num_lt _ _); [intros E; by apply abort_never_returns in E | done].
  - destruct (num_gt _ _); [intros E; by apply abort_never_returns in E | done].
Qed.

Lemma comparison_fails (value threshold : T) message s :
  (num_le value threshold = true → fails (must.GreaterThan value threshold message) message s) ∧
  (num_ge value threshold = true → fails (must.LessThan value threshold message) message s) ∧
  (num_lt value threshold = true →
   fails (must.GreaterThanOrEqual value threshold message) message s) ∧
  (num_gt value threshold = true →
   fails (must.LessThanOrEqual value threshold message) message s).
Proof.
  unfold fails, must.GreaterThan, must.LessThan, must.GreaterThanOrEqual,
    must.LessThanOrEqual.
  repeat split; intros ->; by eexists.
Qed.

End Comparisons.

(** C5 (as amended): on int, and on float64 when neither operand is NaN,
    GreaterThan passes iff value > threshold, LessThan iff value <
    threshold, GreaterThanOrEqual iff value >= threshold and
    LessThanOrEqual iff value <= threshold; when value == threshold the
    first two fail and the last two pass. *)
Theorem comparisons_spec message s :
  (∀ value threshold : Z,
     (passes (must.GreaterThan value threshold message) s ↔ value > threshold) ∧
     (passes (must.LessThan value threshold message) s ↔ value < threshold) ∧
     (passes (must.GreaterThanOrEqual value threshold message) s ↔ value >= threshold) ∧
     (passes (must.LessThanOrEqual value threshold message) s ↔ value <= threshold)) ∧
  (∀ value threshold : float64,
     value ≠ S754_nan → threshold ≠ S754_nan →
     (passes (must.GreaterThan value threshold message) s ↔ SFltb threshold value = true) ∧
     (passes (must.LessThan value threshold message) s ↔ SFltb value threshold = true) ∧
     (passes (must.GreaterThanOrEqual value threshold message) s
      ↔ SFleb threshold value = true) ∧
     (passes (must.LessThanOrEqual value threshold message) s
      ↔ SFleb value threshold = true)) ∧
  (∀ value : Z,
     fails (must.GreaterThan value value message) message s ∧
     fails (must.LessThan value value message) message s ∧
     passes (must.GreaterThanOrEqual value value message) s ∧
     passes (must.LessThanOrEqual value value message) s) ∧
  (∀ value threshold : float64,
     SFeqb value threshold = true →
     fails (must.GreaterThan value threshold message) message s ∧
     fails (must.LessThan value threshold message) message s ∧
     passes (must.GreaterThanOrEqual value threshold message) s ∧
     passes (must.LessThanOrEqual value threshold message) s).
Proof.
  split; [|split; [|split]].
  - intros value threshold.
    destruct (comparison_guards value threshold message s) as (-> & -> & -> & ->).
    unfold num_ge, num_gt. simpl. lia.
  - intros value threshold Hv Ht.
    destruct (comparison_guards value threshold message s) as (-> & -> & -> & ->).
    unfold num_ge, num_gt. simpl.
    pose proof (SFleb_not_ltb value threshold Hv Ht) as E1.
    pose proof (SFleb_not_ltb threshold value Ht Hv) as E2.
    destruct (SFleb value threshold), (SFleb threshold value),
      (SFltb value threshold), (SFltb threshold value); naive_solver.
  - intros value.
    destruct (comparison_guards value value message s) as (_ & _ & -> & ->).
    destruct (comparison_fails value value message s) as (Hgt & Hlt & _ & _).
    unfold num_ge, num_gt in *. simpl in *.
    repeat split; try (apply Hgt); try (apply Hlt); lia.
  - intros value threshold Heq.
    destruct (SFeqb_order value threshold Heq) as (Hle & Hge & Hlt & Hgt).
    destruct (comparison_guards value threshold message s) as (_ & _ & -> & ->).
    destruct (comparison_fails value threshold message s) as (Hf1 & Hf2 & _ & _).
    unfold num_ge, num_gt in *. simpl in *. auto.
Qed.

(** ** Pointers *)


(** ** Slices *)





(** ** The file system *)

(** C10: FileExists fails exactly when os.Stat reports that the path does
    not exist; when os.Stat reports any other error, FileExists passes. *)
Theorem FileExists_spec path message s :
  (fails (must.FileExists path message) message s
   ↔ os_Stat (world s) path = StatErr ENOENT) ∧
  (os_Stat (world s) path = StatErr ENOENT →
   must.FileExists path message s
   = must.abort message ("expected file " +:+ path +:+ " to exist, but it does not") s) ∧
  (∀ err, os_Stat (world s) path = StatErr err → err ≠ ENOENT →
          passes (must.FileExists path message) s).
Proof.
  unfold fails, passes, must.FileExists. rewrite !Stat_bind.
  destruct (os_Stat (world s) path) as [info|err]; simpl.
  - repeat split; try done.
    intros [d Hd]. symmetry in Hd. by apply abort_never_returns in Hd.
  - destruct (N.eqb_spec err ENOENT) as [->|Hne].
    + repeat split; try done; [intros _; by eexists | by intros ? [= <-]].
    + repeat split; try done; try congruence.
      intros [d Hd]. symmetry in Hd. by apply abort_never_returns in Hd.
Qed.

(** * Further properties of the package *)

(** A guarded call of abort passes when the guard is false and fails when
    it is true. *)
Lemma guard_outcomes (b : bool) message details s :
  (passes (if b then must.abort message details else mret ()) s ↔ b = false) ∧
  (fails (if b then must.abort message details else mret ()) message s ↔ b = true).
Proof.
  unfold passes, fails. destruct b; simpl; repeat split; try done.
  - intros E. by apply abort_never_returns in E.
  - intros _. by eexists.
  - intros [d E]. symmetry in E. by apply abort_never_returns in E.
Qed.

(** Closes the cases of a statement about passing and failing once the
    guards are decided. *)
Ltac settle :=
  repeat split; intros; unfold mret, must.M_ret in *; try done; try (by eexists);
  repeat match goal with
    | E : must.abort _ _ _ = Returned _ _ |- _ => by apply abort_never_returns in E
    | E : ∃ _, Returned _ _ = must.abort _ _ _ |- _ => destruct E as [? E]
    | E : Returned _ _ = must.abort _ _ _ |- _ => symmetry in E
    end;
  try congruence.

(** ** Equal and NotEqual *)


(** ** NoError and Error *)

(** X2: NoError passes exactly on the nil error and Error exactly on an
    error that is not nil, so one passes exactly when the other fails;
    the details of a failing NoError end with the text of the error. *)
Theorem NoError_Error_complement (err : error) message s :
  (passes (must.NoError err message) s ↔ err = nil_error) ∧
  (passes (must.Error err message) s ↔ err ≠ nil_error) ∧
  (passes (must.NoError err message) s ↔ fails (must.Error err message) message s) ∧
  (passes (must.Error err message) s ↔ fails (must.NoError err message) message s) ∧
  (∀ text, err = an_error text →
     must.NoError err message s
     = must.abort message ("expected no error, got: " +:+ text) s).
Proof.
  unfold passes, fails. destruct err as [|text]; simpl; settle.
Qed.

(** ** True and False *)

(** X3: True passes exactly on true and False exactly on false, so one
    passes exactly when the other fails, each with its own fixed details. *)
Theorem True_False_complement (value : bool) message s :
  (passes (must.True value message) s ↔ value = true) ∧
  (passes (must.False value message) s ↔ value = false) ∧
  (passes (must.True value message) s ↔ fails (must.False value message) message s) ∧
  (passes (must.False value message) s ↔ fails (must.True value message) message s) ∧
  must.True false message s = must.abort message "expected true, got false" s ∧
  must.False true message s = must.abort message "expected false, got true" s.
Proof. unfold passes, fails, must.True, must.False. destruct value; simpl; settle. Qed.

(** ** A failing check, from the check to the panic *)

(** With handlers that return, abort calls each of them and panics with
    the message and the details joined. *)
Lemma abort_with_returning_handlers message details s :
  (∀ f s0, f ∈ failureHandlers s → hr_completion (run f message details s0) = Returns) →
  ∃ s', must.abort message details s
        = Panicked (VString (message +:+ ": " +:+ details)) s' ∧
        calls s' = calls s ++ map (λ f, (f, message, details)) (failureHandlers s).
Proof.
  intros Hret.
  destruct (range_call_returns (failureHandlers s) message details s Hret) as [s1 E].
  destruct (range_call_effect (failureHandlers s) message details s)
    as (k & _ & Hcalls & _ & Hall).
  unfold must.abort. rewrite (bind_returned _ _ _ _ _ E).
  exists s1. split; [done|].
  rewrite E in Hcalls. simpl in Hcalls. rewrite Hcalls.
  by rewrite Hall by eauto.
Qed.

(** X4: when the condition of a check is evaluated without a runtime
    error, the check does not pass and every registered handler returns,
    the check ends in a panic whose payload is its message, a colon and
    the details, after each registered handler has been called once, in
    registration order, with that message and those details. *)
Theorem failing_check_dispatch (c : check) s :
  runtime_error c s = None →
  ¬ passes (run_check c) s →
  (∀ f details s0, f ∈ failureHandlers s →
                   hr_completion (run f (message_of c) details s0) = Returns) →
  ∃ details s',
    run_check c s = Panicked (VString (message_of c +:+ ": " +:+ details)) s' ∧
    calls s' = calls s ++ map (λ f, (f, message_of c, details)) (failureHandlers s).
Proof.
  intros Hno Hnp Hret.
  destruct (run_check_cases c s) as [Hp | [[details Hf] | (text & Ht & _)]];
    [done| |congruence].
  destruct (abort_with_returning_handlers (message_of c) details s) as (s' & E & Hc).
  { intros f s0 Hin. by apply Hret. }
  exists details, s'. by rewrite Hf.
Qed.

(** X5: with no handler registered, a check either returns, or panics
    with its message, a colon and the details, or panics with the runtime
    error that evaluating its condition ends in, and in all three cases
    leaves the state as it found it; where there is no runtime error, it
    returns or panics with the string. *)
Theorem check_without_handlers (c : check) s :
  failureHandlers s = [] →
  (run_check c s = Returned () s ∨
   (∃ details, run_check c s = Panicked (VString (message_of c +:+ ": " +:+ details)) s) ∨
   (∃ text, runtime_error c s = Some text ∧
            run_check c s = Panicked (VRuntimeError text) s)) ∧
  (runtime_error c s = None →
   run_check c s = Returned () s ∨
   ∃ details, run_check c s = Panicked (VString (message_of c +:+ ": " +:+ details)) s).
Proof.
  intros Hnil.
  assert (∀ details, must.abort (message_of c) details s
                     = Panicked (VString (message_of c +:+ ": " +:+ details)) s) as Ha.
  { intros details. unfold must.abort. by rewrite Hnil. }
  destruct (run_check_cases c s) as [Hp | [[details Hf] | (text & Ht & Hr)]].
  - split; [by left|]. by left.
  - rewrite Hf, Ha. split; [right; left; eauto|]. right. eauto.
  - split; [right; right; eauto|]. congruence.
Qed.

(** ** NotZero *)

(** [== 0] on a float64 holds of the two zeros and of nothing else. *)
Lemma SFeqb_zero (value : float64) :
  SFeqb value (S754_zero false) = true ↔ ∃ sign, value = S754_zero sign.
Proof.
  unfold SFeqb. destruct value as [sign|sign| |sign m e]; simpl.
  - split; [eauto|done].
  - split; [by destruct sign|]. by intros [? [=]].
  - split; [done|]. by intros [? [=]].
  - split; [by destruct sign|]. by intros [? [=]].
Qed.

(** X6: NotZero passes on an int iff it is not 0.  On a float64 it fails
    on both zeros, the positive and the negative one, and passes on every
    other value, NaN and the infinities among them. *)
Theorem NotZero_spec message s :
  (∀ value : Z, passes (must.NotZero value message) s ↔ value ≠ 0) ∧
  (∀ value : float64,
     passes (must.NotZero value message) s ↔ ∀ sign, value ≠ S754_zero sign) ∧
  (∀ sign, fails (must.NotZero (S754_zero sign : float64) message) message s) ∧
  passes (must.NotZero (S754_nan : float64) message) s ∧
  (∀ sign, passes (must.NotZero (S754_infinity sign : float64) message) s).
Proof.
  split; [|split; [|split; [|split]]].
  - intros value. unfold must.NotZero.
    destruct (guard_outcomes (num_eq value num_zero) message
                "expected non-zero value, got zero" s) as [-> _].
    simpl. destruct (Z.eqb_spec value 0); split; try done; by intros [].
  - intros value. unfold must.NotZero.
    destruct (guard_outcomes (num_eq value num_zero) message
                "expected non-zero value, got zero" s) as [-> _].
    simpl. pose proof (SFeqb_zero value) as Hz.
    destruct (SFeqb value (S754_zero false)).
    + split; [done|]. intros Hne. destruct Hz as [[sign ->] _]; [done|]. by destruct (Hne sign).
    + split; [|done]. intros _ sign ->. destruct Hz as [_ Hz]. by discriminate Hz; eauto.
  - intros sign. unfold fails, must.NotZero. simpl. by eexists.
  - done.
  - by intros [].
Qed.

(** ** DirExists *)

Lemma DirExists_cases path message s :
  must.DirExists path message s =
    match os_Stat (world s) path with
    | StatOk info =>
        if IsDir info then Returned () s
        else must.abort message
               ("expected " +:+ path +:+ " to be a directory, but it is not") s
    | StatErr err =>
        if (err =? ENOENT)%N
        then must.abort message
               ("expected directory " +:+ path +:+ " to exist, but it does not") s
        else Returned () s
    end.
Proof.
  unfold must.DirExists.
  destruct (os_Stat (world s) path) as [[[]]|err] eqn:E;
    repeat (run_monad; rewrite ?E); try done.
  destruct (err =? ENOENT)%N; by repeat (run_monad; rewrite ?E).
Qed.

(** X7: DirExists fails with the details of a missing directory exactly
    when os.Stat reports that the path does not exist, and with the
    details of a wrong kind when the path is there and is not a
    directory.  It passes on a directory, and also whenever os.Stat fails
    with any other error. *)
Theorem DirExists_spec path message s :
  (passes (must.DirExists path message) s
   ↔ (∃ info, os_Stat (world s) path = StatOk info ∧ IsDir info = true) ∨
     (∃ err, os_Stat (world s) path = StatErr err ∧ err ≠ ENOENT)) ∧
  (os_Stat (world s) path = StatErr ENOENT →
   must.DirExists path message s
   = must.abort message
       ("expected directory " +:+ path +:+ " to exist, but it does not") s) ∧
  (∀ info, os_Stat (world s) path = StatOk info → IsDir info = false →
   must.DirExists path message s
   = must.abort message ("expected " +:+ path +:+ " to be a directory, but it is not") s).
Proof.
  unfold passes. rewrite DirExists_cases.
  destruct (os_Stat (world s) path) as [[dir]|err]; simpl.
  - destruct dir; split.
    + split; [intros _; left; by eexists|done].
    + split; [done|]. by intros ? [= <-].
    + split.
      * intros E. by apply abort_never_returns in E.
      * intros [(info & [= <-] & Hd) | (err & [=] & _)]. done.
    + split; [done|]. done.
  - destruct (N.eqb_spec err ENOENT) as [->|Hne]; split.
    + split.
      * intros E. by apply abort_never_returns in E.
      * intros [(info & [=] & _) | (err & [= <-] & Hne)]. done.
    + split; [done|]. by intros ? [=].
    + split; [intros _; right; by eexists|done].
    + split; [congruence|]. by intros ? [=].
Qed.

(** X8: FileExists does not ask for a file: it passes on every path
    os.Stat finds, a directory too, and it passes wherever DirExists
    passes. *)
Theorem FileExists_DirExists path message message' s :
  (∀ info, os_Stat (world s) path = StatOk info →
           passes (must.FileExists path message) s) ∧
  (passes (must.DirExists path message') s → passes (must.FileExists path message) s).
Proof.
  unfold passes. rewrite DirExists_cases. unfold must.FileExists. rewrite Stat_bind.
  destruct (os_Stat (world s) path) as [info|err]; cbn [os_IsNotExist err_of]; [done|].
  split; [done|].
  destruct (err =? ENOENT)%N; [|done]. intros E. by apply abort_never_returns in E.
Qed.

(** ** NotContains and SliceNotHas *)



(** ** IsNil, IsNotNil and NotNil *)

(** X10: IsNil passes exactly on the nil interface and IsNotNil exactly on
    every other value, so one passes exactly when the other fails.  NotNil
    asks for more than IsNotNil: where NotNil passes IsNotNil passes, but
    on a nil pointer of any type IsNotNil passes, IsNil fails, and NotNil
    fails. *)
Theorem IsNil_IsNotNil_NotNil (value : any) message s :
  (passes (must.IsNil value message) s ↔ value = VNil) ∧
  (passes (must.IsNotNil value message) s ↔ value ≠ VNil) ∧
  (passes (must.IsNil value message) s ↔ fails (must.IsNotNil value message) message s) ∧
  (passes (must.IsNotNil value message) s ↔ fails (must.IsNil value message) message s) ∧
  (passes (must.NotNil value message) s → passes (must.IsNotNil value message) s) ∧
  (∀ elem, passes (must.IsNotNil (VPtr elem None) message) s ∧
           fails (must.IsNil (VPtr elem None) message) message s ∧
           fails (must.NotNil (VPtr elem None) message) message s).
Proof.
  unfold passes, fails, must.IsNil, must.IsNotNil.
  split; [|split; [|split; [|split; [|split]]]].
  1-4: destruct value; simpl; settle.
  - unfold must.NotNil. destruct value; cbn [must.is_nil_interface]; run_monad; [|done..].
    intros E. by apply abort_never_returns in E.
  - intros elem. unfold must.NotNil. cbn [must.is_nil_interface]. run_monad. simpl.
    repeat split; by eexists.
Qed.

(** ** TypeOf and TypeOfNot *)


(** ** Maps *)

(** The lookup of a key in a map ends in the runtime error of hashing
    the key, or finds an entry exactly when [==] makes the key of some
    entry of the map equal to it. *)
Lemma map_lookup_spec `{Equality K} {V} (m : list (K * V)) (key : K) :
  match map_lookup m key with
  | Ok (Some _) =>
      go_hash key = Ok () ∧ ∃ entry, entry ∈ m ∧ go_equal key entry.1 = Ok true
  | Ok None =>
      go_hash key = Ok () ∧ ∀ entry, entry ∈ m → go_equal key entry.1 ≠ Ok true
  | RuntimePanic text => go_hash key = RuntimePanic text
  end.
Proof.
  unfold map_lookup. destruct (go_hash key) as [[]|text]; [|done].
  destruct (find _ m) as [entry|] eqn:E; simpl.
  - split; [done|]. apply find_some in E as [Hin Heq]. exists entry.
    split; [by apply list_elem_of_In|].
    by destruct (go_equal key entry.1) as [[]|].
  - split; [done|]. intros entry Hin Heq.
    apply list_elem_of_In in Hin. apply (find_none _ _ E entry) in Hin.
    simpl in Hin. by rewrite Heq in Hin.
Qed.

(** X12: MapHas passes exactly when the key can be hashed and [==] makes
    the key of some entry of the map equal to it, whatever value it maps
    to, and MapNotHas exactly when the key can be hashed and [==] makes
    no key of the map equal to it.  For a key that can be hashed one
    passes exactly when the other fails, and on the map without entries
    MapHas fails; for a key that cannot be hashed both end in the
    runtime error, in the state they were called in.  On a map with
    float64 keys MapHas fails and MapNotHas passes for NaN, whatever the
    map holds, and MapHas passes for a zero of either sign on a map that
    holds a zero of either sign. *)
Theorem MapHas_MapNotHas `{Equality K, Fmt K} {V} (m : list (K * V)) (key : K) message s :
  (passes (must.MapHas m key message) s
   ↔ go_hash key = Ok () ∧ ∃ entry, entry ∈ m ∧ go_equal key entry.1 = Ok true) ∧
  (passes (must.MapNotHas m key message) s
   ↔ go_hash key = Ok () ∧ ∀ entry, entry ∈ m → go_equal key entry.1 ≠ Ok true) ∧
  (go_hash key = Ok () →
     (passes (must.MapHas m key message) s
      ↔ fails (must.MapNotHas m key message) message s) ∧
     (passes (must.MapNotHas m key message) s
      ↔ fails (must.MapHas m key message) message s) ∧
     fails (must.MapHas ([] : list (K * V)) key message) message s) ∧
  (∀ text, go_hash key = RuntimePanic text →
     must.MapHas m key message s = Panicked (VRuntimeError text) s ∧
     must.MapNotHas m key message s = Panicked (VRuntimeError text) s) ∧
  (∀ fm : list (float64 * V),
     fails (must.MapHas fm (S754_nan : float64) message) message s ∧
     passes (must.MapNotHas fm (S754_nan : float64) message) s) ∧
  (∀ (held looked : bool) (v : V) (fm : list (float64 * V)),
     passes (must.MapHas ((S754_zero held : float64, v) :: fm)
               (S754_zero looked : float64) message) s).
Proof.
  unfold passes, fails, must.MapHas, must.MapNotHas. rewrite !runtime_bind.
  pose proof (map_lookup_spec m key) as Hm.
  split; [|split; [|split; [|split; [|split]]]].
  - destruct (map_lookup m key) as [[v|]|text].
    + by destruct Hm.
    + split; [intros E; by apply abort_never_returns in E|].
      intros (_ & entry & Hin & Heq). destruct Hm as [_ Hm]. by destruct (Hm entry).
    + split; [done|]. intros [Hh _]. congruence.
  - destruct (map_lookup m key) as [[v|]|text].
    + split; [intros E; by apply abort_never_returns in E|].
      intros [_ Hno]. destruct Hm as (_ & entry & Hin & Heq). by destruct (Hno entry).
    + by destruct Hm.
    + split; [done|]. intros [Hh _]. congruence.
  - intros Hh. unfold map_lookup in *. rewrite Hh. simpl.
    split; [|split]; [| |by eexists]; destruct (find _ m); simpl; settle.
  - intros text Hh. unfold map_lookup. by rewrite Hh.
  - intros fm. rewrite !runtime_bind.
    assert (map_lookup fm (S754_nan : float64) = Ok None) as ->; [|split; [by eexists|done]].
    unfold map_lookup. simpl. by induction fm as [|[k v] fm IH].
  - intros held looked v fm. rewrite runtime_bind. by destruct held, looked.
Qed.

(** X13: MapEmpty passes exactly on the map without keys and MapNotEmpty
    exactly on every other map, so one passes exactly when the other
    fails; where MapHas passes for some key MapNotEmpty passes, and where
    MapEmpty passes MapNotHas passes for every key. *)
Theorem MapEmpty_MapNotEmpty `{Comparable K, Fmt K} {V} (m : list (K * V)) message s :
  (passes (must.MapEmpty m message) s ↔ m = []) ∧
  (passes (must.MapNotEmpty m message) s ↔ m ≠ []) ∧
  (passes (must.MapEmpty m message) s ↔ fails (must.MapNotEmpty m message) message s) ∧
  (passes (must.MapNotEmpty m message) s ↔ fails (must.MapEmpty m message) message s) ∧
  (∀ key message', passes (must.MapHas m key message') s →
                   passes (must.MapNotEmpty m message) s) ∧
  (passes (must.MapEmpty m message) s →
   ∀ key message', passes (must.MapNotHas m key message') s).
Proof.
  assert (passes (must.MapEmpty m message) s ↔ m = []) as He.
  { unfold passes, must.MapEmpty. rewrite <- length_zero_iff_nil.
    destruct (bool_decide_reflect (length m = 0%nat)); simpl; settle. }
  assert (passes (must.MapNotEmpty m message) s ↔ m ≠ []) as Hn.
  { unfold passes, must.MapNotEmpty. rewrite <- length_zero_iff_nil.
    destruct (bool_decide_reflect (length m = 0%nat)); simpl; settle. }
  split; [done|]. split; [done|].
  split; [|split; [|split]].
  - unfold passes, fails, must.MapEmpty, must.MapNotEmpty.
    destruct (bool_decide (length m = 0%nat)); simpl; settle.
  - unfold passes, fails, must.MapEmpty, must.MapNotEmpty.
    destruct (bool_decide (length m = 0%nat)); simpl; settle.
  - intros key message' Hhas. apply Hn. intros ->.
    unfold passes, must.MapHas in Hhas. rewrite runtime_bind in Hhas.
    by apply abort_never_returns in Hhas.
  - intros Hempty key message'. apply He in Hempty as ->.
    unfold passes, must.MapNotHas. by rewrite runtime_bind.
Qed.

(** ** IsEmpty *)

(** X14: IsEmpty passes exactly on the slice without elements; where it
    passes, Contains fails and NotContains passes for every value. *)
Theorem IsEmpty_Contains `{Comparable T, Fmt T} (slice : list T) message s :
  (passes (must.IsEmpty slice message) s ↔ slice = []) ∧
  (passes (must.IsEmpty slice message) s →
   ∀ value message',
     fails (must.Contains slice value message') message' s ∧
     passes (must.NotContains slice value message') s).
Proof.
  assert (passes (must.IsEmpty slice message) s ↔ slice = []) as He.
  { unfold passes, must.IsEmpty. destruct slice; simpl; settle. }
  split; [done|]. intros Hp value message'. apply He in Hp as ->.
  unfold passes, fails, must.Contains, must.NotContains. simpl. split; [by eexists|done].
Qed.

(** ** Registering, then failing *)

(** Registering a list of handlers puts them at the end of the registry,
    in their order, and changes nothing else. *)
Lemma register_all_effect fs s :
  register_all fs s
  = Returned () {| failureHandlers := failureHandlers s ++ fs;
                   calls := calls s;
                   world := world s |}.
Proof.
  revert s. induction fs as [|f fs IH]; intros s; simpl.
  - rewrite app_nil_r. by destruct s.
  - unfold mbind, must.M_bind, must.RegisterFailureHandler. rewrite IH. simpl.
    by rewrite <- app_assoc.
Qed.

(** X15: handlers registered one after the other are called by the next
    failure in the order of their registration, after the handlers that
    were registered before, and as many times as they were registered:
    nothing is dropped as a duplicate.  No handler is called by the
    registration itself. *)
Theorem register_then_abort fs message details s :
  (∀ f s0, f ∈ failureHandlers s ++ fs →
           hr_completion (run f message details s0) = Returns) →
  calls (state_of (register_all fs s)) = calls s ∧
  ∃ s', (register_all fs ;; must.abort message details) s
        = Panicked (VString (message +:+ ": " +:+ details)) s' ∧
        calls s' = calls s ++ map (λ f, (f, message, details)) (failureHandlers s ++ fs).
Proof.
  intros Hret. rewrite register_all_effect. split; [done|].
  rewrite (bind_returned _ _ _ _ _ (register_all_effect fs s)).
  apply (abort_with_returning_handlers message details
           {| failureHandlers := failureHandlers s ++ fs;
              calls := calls s; world := world s |}).
  exact Hret.
Qed.

(** ** Comparisons, mirrored *)

(** X16: GreaterThan of a value and a threshold passes exactly when
    LessThan of the threshold and the value does, and
    GreaterThanOrEqual exactly when LessThanOrEqual of the two exchanged
    does, for every numeric type, NaN included.  On int and on float64
    the strict comparison asks for more: where GreaterThan passes
    GreaterThanOrEqual passes, and where LessThan passes LessThanOrEqual
    passes. *)
Theorem comparisons_mirror message s :
  (∀ `{Number T, Fmt T} (value threshold : T),
     (passes (must.GreaterThan value threshold message) s
      ↔ passes (must.LessThan threshold value message) s) ∧
     (passes (must.GreaterThanOrEqual value threshold message) s
      ↔ passes (must.LessThanOrEqual threshold value message) s)) ∧
  (∀ value threshold : Z,
     (passes (must.GreaterThan value threshold message) s →
      passes (must.GreaterThanOrEqual value threshold message) s) ∧
     (passes (must.LessThan value threshold message) s →
      passes (must.LessThanOrEqual value threshold message) s)) ∧
  (∀ value threshold : float64,
     (passes (must.GreaterThan value threshold message) s →
      passes (must.GreaterThanOrEqual value threshold message) s) ∧
     (passes (must.LessThan value threshold message) s →
      passes (must.LessThanOrEqual value threshold message) s)).
Proof.
  split; [|split].
  - intros T HN HF value threshold.
    destruct (comparison_guards value threshold message s) as (-> & _ & -> & _).
    destruct (comparison_guards threshold value message s) as (_ & -> & _ & ->).
    done.
  - intros value threshold.
    destruct (comparison_guards value threshold message s) as (-> & -> & -> & ->).
    unfold num_ge, num_gt. simpl. lia.
  - intros value threshold.
    destruct (comparison_guards value threshold message s) as (-> & -> & -> & ->).
    unfold num_ge, num_gt. simpl. unfold SFleb, SFltb.
    rewrite (SFcompare_antisym value threshold).
    by destruct (SFcompare value threshold) as [[]|].
Qed.

(** ** One check after the other *)

Lemma bind_same_start {A B} (c c' : must.M A) (k : A → must.M B) s :
  c s = c' s → (c ≫= k) s = (c' ≫= k) s.
Proof. unfold mbind, must.M_bind. by intros ->. Qed.

(** A check that does not pass ends the run it is part of. *)
Lemma run_check_ends (c : check) s :
  passes (run_check c) s ∨
  (¬ passes (run_check c) s ∧
   ∀ k : unit → must.M unit, (run_check c ≫= k) s = run_check c s).
Proof.
  unfold passes.
  destruct (run_check_cases c s) as [Hp | [[details Hf] | (text & _ & Hr)]].
  - by left.
  - right. split.
    + rewrite Hf. apply abort_never_returns.
    + intros k. by rewrite (bind_same_start _ _ _ _ Hf), abort_then, Hf.
  - right. split; [by rewrite Hr|].
    intros k. by rewrite (bind_panicked _ _ _ _ _ Hr).
Qed.

(** X17: a run of checks comes to its end exactly when every check
    passes, and then the state is as before; otherwise it ends as the
    first check that does not pass ends, and no check after that one is
    made. *)
Theorem run_all_spec (cs : list check) s :
  (run_all cs s = Returned () s ↔ ∀ c, c ∈ cs → passes (run_check c) s) ∧
  (∀ before c after,
     cs = before ++ c :: after →
     (∀ b, b ∈ before → passes (run_check b) s) →
     ¬ passes (run_check c) s →
     run_all cs s = run_check c s).
Proof.
  split.
  - induction cs as [|c cs IH]; simpl.
    + split; [|done]. intros _ c Hc. by apply elem_of_nil in Hc.
    + destruct (run_check_ends c s) as [Hp | [Hnp Hend]].
      * rewrite (bind_returned _ _ _ _ _ Hp), IH. split.
        -- intros Hall c' Hc'. apply elem_of_cons in Hc' as [->|Hc']; [done|by apply Hall].
        -- intros Hall c' Hc'. apply Hall. by apply list_elem_of_further.
      * rewrite Hend. split; [done|].
        intros Hall. destruct Hnp. apply Hall, list_elem_of_here.
  - intros before. revert cs. induction before as [|b before IH];
      intros cs c after -> Hbefore Hnp; simpl.
    + destruct (run_check_ends c s) as [Hp | [_ Hend]]; [done|]. by rewrite Hend.
    + assert (passes (run_check b) s) as Hb by apply Hbefore, list_elem_of_here.
      rewrite (bind_returned _ _ _ _ _ Hb).
      apply (IH _ c after eq_refl); [|done].
      intros b' Hb'. apply Hbefore. by apply list_elem_of_further.
Qed.

(** ** NotEmpty and Empty on the types of the switch *)

(** X18: on a []any and on a map[any]any NotEmpty passes exactly when
    there is an element or an entry, and Empty exactly when there is
    none: a nil slice and a nil map are empty.  On a string NotEmpty
    passes exactly when it is not the empty string, and Empty exactly
    when it is. *)
Theorem NotEmpty_Empty_supported message s :
  (∀ elems,
     (passes (must.NotEmpty (VSlice TAny elems) message) s
      ↔ ∃ x rest, elems = Some (x :: rest)) ∧
     (passes (must.Empty (VSlice TAny elems) message) s
      ↔ elems = None ∨ elems = Some [])) ∧
  (∀ entries,
     (passes (must.NotEmpty (VMap TAny TAny entries) message) s
      ↔ ∃ x rest, entries = Some (x :: rest)) ∧
     (passes (must.Empty (VMap TAny TAny entries) message) s
      ↔ entries = None ∨ entries = Some [])) ∧
  (∀ v,
     (passes (must.NotEmpty (VString v) message) s ↔ v ≠ "") ∧
     (passes (must.Empty (VString v) message) s ↔ v = "")).
Proof.
  unfold passes. split; [|split].
  - intros [[|x rest]|]; simpl; split; split; try (by eauto);
      try (intros E; by apply abort_never_returns in E);
      try (by intros (? & ? & [=])); by intros [[=]|[=]].
  - intros [[|x rest]|]; simpl; split; split; try (by eauto);
      try (intros E; by apply abort_never_returns in E);
      try (by intros (? & ? & [=])); by intros [[=]|[=]].
  - intros v. simpl. destruct (bool_decide_reflect (v = "")); simpl; settle.
Qed.

End Theory.

(** * The properties on the sample host *)

#[local] Existing Instance sample_host.

(** C1, as stated, fails when a handler panics: with handlers 0 and 1
    registered, abort calls handler 0 only and ends with the panic of that
    handler, not with message: details. *)
Lemma abort_panicking_handler_counterexample :
  let s := registered [0; 1]%nat in
  @must.abort sample_host "violated" "details" s
  = Panicked (VString "handler failed")
      {| failureHandlers := [0; 1]%nat;
         calls := [(0%nat, "violated", "details")];
         world := [] |} ∧
  ¬ ∃ s', @must.abort sample_host "violated" "details" s
          = Panicked (VString "violated: details") s' ∧
          calls s' = calls s ++ map (λ f, (f, "violated", "details")) (failureHandlers s).
Proof.
  split; [reflexivity|]. intros (s' & E & _). vm_compute in E. discriminate E.
Qed.

Lemma abort_spec_witness :
  let s := registered [1; 0; 1]%nat in
  completion_at (H:=sample_host) [1; 0; 1]%nat 1 "violated" "details" s
  = Some (Panics (VString "handler failed")) ∧
  Panics (VString "handler failed") ≠ Returns ∧
  (∀ j, (j < 1)%nat →
        completion_at (H:=sample_host) [1; 0; 1]%nat j "violated" "details" s
        = Some Returns) ∧
  @must.abort sample_host "violated" "details" s
  = Panicked (VString "handler failed")
      {| failureHandlers := [1; 0; 1]%nat;
         calls := [(1%nat, "violated", "details"); (0%nat, "violated", "details")];
         world := ["violated: details"] |}.
Proof.
  intros s.
  assert (completion_at (H:=sample_host) [1; 0; 1]%nat 1 "violated" "details" s
          = Some (Panics (VString "handler failed"))) as Hc by reflexivity.
  assert (Panics (VString "handler failed") ≠ Returns) as Hne by discriminate.
  assert (∀ j, (j < 1)%nat →
               completion_at (H:=sample_host) [1; 0; 1]%nat j "violated" "details" s
               = Some Returns) as Hbefore.
  { intros j Hj. destruct j as [|j]; [reflexivity|lia]. }
  split; [exact Hc|]. split; [exact Hne|]. split; [exact Hbefore|].
  exact (proj1 (proj2 (proj2 (proj2 (@abort_spec sample_host "violated" "details" s))))
           1%nat (Panics (VString "handler failed")) Hc Hne Hbefore).
Defined.



Lemma NotEmpty_Empty_typed_containers_witness :
  TInt ≠ TAny ∧
  @must.NotEmpty sample_host (VSlice TInt (Some [VInt 1; VInt 2; VInt 3])) "not empty"
    (registered [1]%nat)
  = @must.abort sample_host "not empty" "expected a map, slice or string, got []int"
      (registered [1]%nat) ∧
  @must.Empty sample_host (VSlice TInt (Some [VInt 1; VInt 2; VInt 3])) "not empty"
    (registered [1]%nat)
  = @must.abort sample_host "not empty" "expected a map, slice or string, got []int"
      (registered [1]%nat).
Proof.
  assert (TInt ≠ TAny) as Hne by discriminate.
  split; [exact Hne|].
  exact (proj1 (@NotEmpty_Empty_typed_containers sample_host "not empty" (registered [1]%nat))
           TInt (Some [VInt 1; VInt 2; VInt 3]) Hne).
Defined.

(** C5, as stated, fails on NaN: GreaterThan passes on NaN and 0 although
    NaN > 0 is false. *)
Lemma GreaterThan_NaN_counterexample :
  passes (H:=sample_host)
    (must.GreaterThan (S754_nan : float64) (S754_zero false) "must be positive")
    (registered []) ∧
  SFltb (S754_zero false) S754_nan = false.
Proof. split; reflexivity. Qed.

Lemma comparisons_spec_witness :
  let x : float64 := S754_finite false 3 (-1) in
  let y : float64 := S754_finite false 1 1 in
  x ≠ S754_nan ∧ y ≠ S754_nan ∧
  (passes (H:=sample_host) (must.LessThan x y "below") (registered []) ↔ SFltb x y = true).
Proof.
  intros x y.
  assert (x ≠ S754_nan) as Hx by discriminate.
  assert (y ≠ S754_nan) as Hy by discriminate.
  split; [exact Hx|]. split; [exact Hy|].
  exact (proj1 (proj2 (proj1 (proj2 (@comparisons_spec sample_host "below" (registered [])))
                         x y Hx Hy))).
Defined.



(** C8, as stated, fails on Equal at the type any on two slices of int:
    [==] on the two interface values makes the runtime panic.  The check does not return
    and does not reach abort: the registered handler is not called and
    the panic does not carry the message of the check. *)
Lemma Equal_uncomparable_counterexample :
  let c := check_Equal (T:=any) (VSlice TInt (Some [VInt 1])) (VSlice TInt (Some [VInt 1]))
             "same slice" in
  let s := registered [1]%nat in
  run_check c s = Panicked (VRuntimeError "comparing uncomparable type []int") s ∧
  calls (state_of (run_check c s)) = [] ∧
  ¬ ((run_check c s = Returned () s ∧ ¬ fails (run_check c) (message_of c) s) ∨
     (∃ details,
        run_check c s = must.abort (message_of c) details s ∧
        ∀ a s', run_check c s ≠ Returned a s')).
Proof.
  intros c s.
  assert (run_check c s = Panicked (VRuntimeError "comparing uncomparable type []int") s)
    as Hr by reflexivity.
  split; [exact Hr|]. split; [reflexivity|].
  rewrite Hr. intros [[E _] | (details & E & _)]; [discriminate E|].
  symmetry in E. exact (abort_not_runtime_error (H:=sample_host) _ _ _ _ E).
Qed.

Lemma check_outcomes_witness :
  let s := registered [1]%nat in
  let holding := check_Equal (T:=Z) 2 2 "same number" in
  let violated := check_Equal (T:=Z) 1 2 "same number" in
  let refused := check_Equal (T:=any) (VSlice TInt None) (VSlice TInt None) "same slice" in
  (condition holding s = Ok true ∧ run_check holding s = Returned () s) ∧
  (condition violated s = Ok false ∧
   ∃ details, run_check violated s = must.abort "same number" details s) ∧
  (condition refused s = RuntimePanic "comparing uncomparable type []int" ∧
   run_check refused s = Panicked (VRuntimeError "comparing uncomparable type []int") s) ∧
  (compares (check_True true "yes") = false ∧
   ∃ holds, condition (check_True true "yes") s = Ok holds).
Proof.
  intros s holding violated refused.
  split; [split; [reflexivity|]|split; [split; [reflexivity|]|split; [split; [reflexivity|]|]]].
  - exact (proj1 (proj1 (@check_outcomes sample_host holding s) eq_refl)).
  - destruct (proj1 (proj2 (@check_outcomes sample_host violated s)) eq_refl)
      as (details & E & _).
    exists details. exact E.
  - exact (proj1 (proj1 (proj2 (proj2 (@check_outcomes sample_host refused s)))
                    "comparing uncomparable type []int" eq_refl)).
  - split; [reflexivity|].
    exact (proj2 (proj2 (proj2 (@check_outcomes sample_host (check_True true "yes") s)))
             eq_refl).
Defined.

Lemma FileExists_spec_witness :
  os_Stat (Host:=sample_host) [] "/root/private/file" = StatErr EACCES ∧
  EACCES ≠ ENOENT ∧
  passes (H:=sample_host) (must.FileExists "/root/private/file" "file exists") (registered []).
Proof.
  assert (os_Stat (Host:=sample_host) (world (registered [])) "/root/private/file"
          = StatErr EACCES) as Hstat by reflexivity.
  assert (EACCES ≠ ENOENT) as Hne by discriminate.
  split; [exact Hstat|]. split; [exact Hne|].
  exact (proj2 (proj2 (@FileExists_spec sample_host "/root/private/file" "file exists"
                         (registered []))) EACCES Hstat Hne).
Defined.

(** * The further properties on the sample host *)


Lemma NoError_Error_complement_witness :
  an_error "disk full" = an_error "disk full" ∧
  must.NoError (an_error "disk full") "saved" (registered [1]%nat)
  = must.abort "saved" "expected no error, got: disk full" (registered [1]%nat).
Proof.
  split; [reflexivity|].
  exact (proj2 (proj2 (proj2 (proj2
           (@NoError_Error_complement sample_host (an_error "disk full") "saved"
              (registered [1]%nat)))))
           "disk full" eq_refl).
Defined.

Lemma failing_check_dispatch_witness :
  let c := check_Equal (T:=Z) 1 2 "x" in
  let s := registered [1; 2]%nat in
  runtime_error c s = None ∧
  ¬ passes (run_check c) s ∧
  (∀ f details s0, f ∈ [1; 2]%nat →
                   hr_completion (sample_run f "x" details s0) = Returns) ∧
  ∃ details s',
    run_check c s = Panicked (VString ("x" +:+ ": " +:+ details)) s' ∧
    calls s' = map (λ f, (f, "x", details)) [1; 2]%nat.
Proof.
  intros c s.
  assert (¬ passes (run_check c) s) as Hnp.
  { intros E. vm_compute in E. discriminate E. }
  assert (∀ f details s0, f ∈ [1; 2]%nat →
                          hr_completion (sample_run f "x" details s0) = Returns) as Hret.
  { intros f details s0 Hf.
    repeat (apply elem_of_cons in Hf as [->|Hf]; [reflexivity|]).
    by apply elem_of_nil in Hf. }
  split; [reflexivity|]. split; [exact Hnp|]. split; [exact Hret|].
  exact (@failing_check_dispatch sample_host c s eq_refl Hnp Hret).
Defined.

Lemma check_without_handlers_witness :
  let c := check_GreaterThan (T:=Z) 41 42 "answer" in
  failureHandlers (registered []) = [] ∧
  runtime_error c (registered []) = None ∧
  (run_check c (registered []) = Returned () (registered []) ∨
   ∃ details,
     run_check c (registered [])
     = Panicked (VString ("answer" +:+ ": " +:+ details)) (registered [])).
Proof.
  intros c. split; [reflexivity|]. split; [reflexivity|].
  exact (proj2 (@check_without_handlers sample_host c (registered []) eq_refl) eq_refl).
Defined.

Lemma DirExists_spec_witness :
  let path := "/tmp/must-test-file.txt" in
  os_Stat (Host:=sample_host) [] path = StatOk {| IsDir := false |} ∧
  must.DirExists path "is a directory" (registered [])
  = must.abort "is a directory"
      ("expected " +:+ path +:+ " to be a directory, but it is not") (registered []).
Proof.
  intros path.
  assert (os_Stat (Host:=sample_host) (world (registered [])) path
          = StatOk {| IsDir := false |}) as Hstat by reflexivity.
  split; [exact Hstat|].
  exact (proj2 (proj2 (@DirExists_spec sample_host path "is a directory" (registered [])))
           {| IsDir := false |} Hstat eq_refl).
Defined.

Lemma FileExists_DirExists_witness :
  let path := "/tmp/must-test-dir" in
  passes (must.DirExists path "is a directory") (registered []) ∧
  passes (must.FileExists path "is there") (registered []).
Proof.
  intros path.
  assert (passes (H:=sample_host) (must.DirExists path "is a directory") (registered []))
    as Hdir by reflexivity.
  split; [exact Hdir|].
  exact (proj2 (@FileExists_DirExists sample_host path "is there" "is a directory"
                  (registered [])) Hdir).
Defined.

Lemma IsNil_IsNotNil_NotNil_witness :
  passes (must.NotNil (VInt 5) "set") (registered []) ∧
  passes (must.IsNotNil (VInt 5) "set") (registered []).
Proof.
  assert (passes (H:=sample_host) (must.NotNil (VInt 5) "set") (registered []))
    as Hnn by reflexivity.
  split; [exact Hnn|].
  exact (proj1 (proj2 (proj2 (proj2 (proj2
           (@IsNil_IsNotNil_NotNil sample_host (VInt 5) "set" (registered []))))))
           Hnn).
Defined.


Lemma MapHas_MapNotHas_witness :
  let s := registered [1]%nat in
  let key := VSlice TInt None in
  go_hash (1 : Z) = Ok () ∧
  fails (must.MapHas ([] : list (Z * string)) 1 "has 1") "has 1" s ∧
  go_hash key = RuntimePanic "hash of unhashable type []int" ∧
  must.MapHas [(VInt 1, "one")] key "has the slice" s
  = Panicked (VRuntimeError "hash of unhashable type []int") s.
Proof.
  intros s key.
  split; [reflexivity|].
  split; [exact (proj2 (proj2 (proj1 (proj2 (proj2
            (@MapHas_MapNotHas sample_host Z _ _ string [(1, "one")] 1 "has 1" s)))
            eq_refl)))|].
  split; [reflexivity|].
  exact (proj1 (proj1 (proj2 (proj2 (proj2
           (@MapHas_MapNotHas sample_host any _ _ string [(VInt 1, "one")] key
              "has the slice" s))))
           "hash of unhashable type []int" eq_refl)).
Defined.

Lemma MapEmpty_MapNotEmpty_witness :
  let m : list (string * Z) := [("foo", 1)] in
  passes (must.MapHas m "foo" "has foo") (registered []) ∧
  passes (must.MapNotEmpty m "not empty") (registered []).
Proof.
  intros m.
  assert (passes (H:=sample_host) (must.MapHas m "foo" "has foo") (registered []))
    as Hhas by (vm_compute; reflexivity).
  split; [exact Hhas|].
  exact (proj1 (proj2 (proj2 (proj2 (proj2
           (@MapEmpty_MapNotEmpty sample_host string _ _ Z m "not empty"
              (registered []))))))
           "foo" "has foo" Hhas).
Defined.

Lemma IsEmpty_Contains_witness :
  passes (must.IsEmpty ([] : list Z) "nothing left") (registered []) ∧
  fails (must.Contains ([] : list Z) 7 "has 7") "has 7" (registered []) ∧
  passes (must.NotContains ([] : list Z) 7 "has 7") (registered []).
Proof.
  assert (passes (H:=sample_host) (must.IsEmpty ([] : list Z) "nothing left")
            (registered [])) as Hempty by reflexivity.
  split; [exact Hempty|].
  exact (proj2 (@IsEmpty_Contains sample_host Z _ _ [] "nothing left" (registered []))
           Hempty 7 "has 7").
Defined.

Lemma register_then_abort_witness :
  (∀ f s0, f ∈ [1]%nat ++ [2; 1]%nat →
           hr_completion (sample_run f "violated" "details" s0) = Returns) ∧
  ∃ s', (register_all [2; 1]%nat ;; must.abort "violated" "details") (registered [1]%nat)
        = Panicked (VString "violated: details") s' ∧
        calls s' = [(1%nat, "violated", "details"); (2%nat, "violated", "details");
                    (1%nat, "violated", "details")].
Proof.
  assert (∀ f s0, f ∈ [1]%nat ++ [2; 1]%nat →
                  hr_completion (sample_run f "violated" "details" s0) = Returns) as Hret.
  { intros f s0 Hf. simpl in Hf.
    repeat (apply elem_of_cons in Hf as [->|Hf]; [reflexivity|]).
    by apply elem_of_nil in Hf. }
  split; [exact Hret|].
  exact (proj2 (@register_then_abort sample_host [2; 1]%nat "violated" "details"
                  (registered [1]%nat) Hret)).
Defined.

Lemma comparisons_mirror_witness :
  passes (must.GreaterThan 42 41 "above") (registered []) ∧
  passes (must.GreaterThanOrEqual 42 41 "above") (registered []).
Proof.
  assert (passes (H:=sample_host) (must.GreaterThan 42 41 "above") (registered []))
    as Hgt by reflexivity.
  split; [exact Hgt|].
  exact (proj1 (proj1 (proj2 (@comparisons_mirror sample_host "above" (registered [])))
                  42 41) Hgt).
Defined.

Lemma run_all_spec_witness :
  let first := check_True true "first" in
  let second := check_False true "second" in
  let third := check_True false "third" in
  let s := registered [1]%nat in
  (∀ b, b ∈ [first] → passes (run_check b) s) ∧
  ¬ passes (run_check second) s ∧
  run_all [first; second; third] s = run_check second s.
Proof.
  intros first second third s.
  assert (∀ b, b ∈ [first] → passes (run_check b) s) as Hbefore.
  { intros b Hb. apply elem_of_cons in Hb as [->|Hb]; [reflexivity|].
    by apply elem_of_nil in Hb. }
  assert (¬ passes (run_check second) s) as Hnp.
  { intros E. vm_compute in E. discriminate E. }
  split; [exact Hbefore|]. split; [exact Hnp|].
  exact (proj2 (@run_all_spec sample_host [first; second; third] s)
           [first] second [third] eq_refl Hbefore Hnp).
Defined.
